(** * AlphaLink2 inference driver: chunk sizing, seeding and best-of-N selection

    A shallow embedding of [inference.py].

    Number model.  Python floats and NumPy float64 values are the kernel's
    binary64 floats ([PrimFloat.float]); their comparisons and arithmetic are
    the IEEE 754 ones, specified by [FloatAxioms] over [SpecFloat].  The
    entries of float32 tensors and arrays are the binary64 numbers that are
    binary32 numbers.  Where the driver computes with them (the satisfaction
    counts and their ratio, the B-factors), the operation is the binary64
    one followed by [F32.round], the rounding to binary32, and a Python
    float that meets a float32 tensor is rounded to binary32 first.  Python
    integers are [Z].

    The model, the feature pipeline and the library functions the driver
    calls are the fields of a [World]; the driver is a function of it.

    Exceptions are explicit: a computation that may raise returns a
    [result]. *)

From Stdlib Require Import ZArith List String Ascii Bool Lia Floats
  DecimalString.
From Stdlib Require Uint63 DecimalPos DecimalZ.

Set Warnings "-inexact-float".
Import ListNotations.

Local Open Scope Z_scope.

(** ** Exceptions *)

Inductive Exn : Type :=
| ValueError
| OverflowError
| TypeError
| NameError
| AttributeError.

Inductive result (A : Type) : Type :=
| Ok (a : A)
| Raise (e : Exn).

Arguments Ok {A} a.
Arguments Raise {A} e.

Definition bind {A B : Type} (r : result A) (k : A -> result B) : result B :=
  match r with
  | Ok a => k a
  | Raise e => Raise e
  end.

Notation "x <- r ;; k" := (bind r (fun x => k))
  (at level 61, r at next level, right associativity).

(** ** Python numbers *)

Module Py.

(** [float(n)] for an integer [n]: the nearest binary64 number, ties to
    even. *)
Definition float_of_Z (n : Z) : float :=
  SF2Prim (binary_normalize prec emax n 0 false).

(** [float(b)] for a bool, as in [0.55 * is_bf16]. *)
Definition float_of_bool (b : bool) : float :=
  if b then 1%float else 0%float.

(** [int(x)]: truncation toward zero; [ValueError] on a NaN and
    [OverflowError] on an infinity. *)
Definition int (x : float) : result Z :=
  match Prim2SF x with
  | S754_zero _ => Ok 0
  | S754_finite s m e =>
      let a := Z.shiftl (Zpos m) e in
      Ok (if s then - a else a)
  | S754_infinity _ => Raise OverflowError
  | S754_nan => Raise ValueError
  end.

(** [math.sqrt(x)]: [ValueError] below zero. *)
Definition math_sqrt (x : float) : result float :=
  if (x <? 0)%float then Raise ValueError else Ok (PrimFloat.sqrt x).

(** [l[i]] with Python's negative indices; [None] stands for
    [IndexError]. *)
Definition index {A : Type} (l : list A) (i : Z) : option A :=
  let n := Z.of_nat (List.length l) in
  if 0 <=? i then nth_error l (Z.to_nat i)
  else if - n <=? i then nth_error l (Z.to_nat (n + i))
  else None.

End Py.

(** ** Binary32 numbers *)

Module F32.

Definition mantissa_bits : Z := 24.
Definition exponent_max : Z := 128.

(** A binary32 number as the binary64 number of the same value. *)
Definition widen (x : spec_float) : float :=
  match x with
  | S754_finite s m e =>
      SF2Prim (binary_normalize prec emax (if s then Zneg m else Zpos m) e s)
  | _ => SF2Prim x
  end.

(** The binary32 number nearest to a binary64 number, ties to even, with
    overflow to the infinities. *)
Definition round (x : float) : float :=
  match Prim2SF x with
  | S754_finite s m e => widen (binary_round mantissa_bits exponent_max s m e)
  | _ => x
  end.

(** The binary32 number nearest to an integer: an integer tensor turned
    into one of torch's default type. *)
Definition of_Z (n : Z) : float :=
  widen (binary_normalize mantissa_bits exponent_max n 0 false).

End F32.

(** ** Device memory and chunk sizing *)

(** What [torch.cuda] reports: whether a device is there, and the total
    memory of the current one in bytes. *)
Record Cuda : Type := mkCuda {
  is_available : bool;
  total_memory : Z
}.

Section ChunkSizer.

Variable cuda : Cuda.

Definition get_device_mem (device : string) : float :=
  if negb (String.eqb device "cpu") && is_available cuda then
    (Py.float_of_Z (total_memory cuda) / 1024 / 1024 / 1024)%float
  else
    40%float.

(** The scaling factor of [automatic_chunk_size]. *)
Definition chunk_factor (total_mem_in_GB : float) (is_bf16 : bool)
  : result float :=
  r <- Py.math_sqrt
         (total_mem_in_GB / 40.0
          * (0.55 * Py.float_of_bool is_bf16 + 0.45))%float ;;
  Ok (r * 0.95)%float.

Definition automatic_chunk_size
    (seq_len : Z) (device : string) (is_bf16 : bool)
  : result (Z * option Z) :=
  let total_mem_in_GB := get_device_mem device in
  factor <- chunk_factor total_mem_in_GB is_bf16 ;;
  t1 <- Py.int (1024 * factor)%float ;;
  if seq_len <? t1 then Ok (256, None) else
  t2 <- Py.int (2048 * factor)%float ;;
  if seq_len <? t2 then Ok (128, None) else
  t3 <- Py.int (3072 * factor)%float ;;
  if seq_len <? t3 then Ok (64, None) else
  t4 <- Py.int (4096 * factor)%float ;;
  if seq_len <? t4 then Ok (32, Some 512) else
  Ok (4, Some 256).

End ChunkSizer.

(** The chunk sizer in the specification's words: a scaling factor, four
    scaled breakpoints tried in order, each with its pair, and the last pair
    beyond them all. *)
Definition breakpoints : list (float * (Z * option Z)) :=
  [ (1024%float, (256, None)); (2048%float, (128, None));
    (3072%float, (64, None)); (4096%float, (32, Some 512)) ].

Fixpoint first_below (sequence_length : Z) (factor : float)
    (bps : list (float * (Z * option Z))) : result (Z * option Z) :=
  match bps with
  | [] => Ok (4, Some 256)
  | (bp, sizes) :: rest =>
      t <- Py.int (bp * factor)%float ;;
      if sequence_length <? t then Ok sizes
      else first_below sequence_length factor rest
  end.

Definition chunk_sizer (sequence_length : Z) (memory_budget_GB : float)
    (use_low_precision : bool) : result (Z * option Z) :=
  let factor :=
    (PrimFloat.sqrt
       (memory_budget_GB / 40
        * (0.55 * Py.float_of_bool use_low_precision + 0.45))
     * 0.95)%float in
  first_below sequence_length factor breakpoints.

(** ** Bounded binary64 numbers *)

(** Nonnegative numbers with their value below [2 ^ E]. *)
Definition below (E : Z) (x : spec_float) : Prop :=
  match x with
  | S754_zero false => True
  | S754_finite false m e => Zpos (digits2_pos m) + e <= E
  | _ => False
  end.

Abbreviation fexp64 := (fexp prec emax).

(** ** Text *)

Module Fmt.

(** [str(n)] and [f"{n}"] for an integer. *)
Definition str_int (n : Z) : string :=
  NilZero.string_of_int (Z.to_int n).

(** [f"{x}"] for a variable that holds an integer or [None]. *)
Definition str_opt_int (x : option Z) : string :=
  match x with
  | Some n => str_int n
  | None => "None"%string
  end.

Definition digit (d : Z) : ascii :=
  ascii_of_nat (48 + Z.to_nat (d mod 10)).

(** The integer nearest to [m * 2^e], ties to even. *)
Definition round_half_even (m e : Z) : Z :=
  if 0 <=? e then Z.shiftl m e
  else
    let d := Z.shiftl 1 (- e) in
    let q := m / d in
    let r := m mod d in
    match 2 * r ?= d with
    | Lt => q
    | Gt => q + 1
    | Eq => if Z.even q then q else q + 1
    end.

(** The digits of [n / 1000] with three decimals, for [0 <= n]. *)
Definition fixed3 (n : Z) : string :=
  (str_int (n / 1000) ++ "."
   ++ String (digit (n / 100)) (String (digit (n / 10)) (String (digit n) "")))%string.

(** ["%.3f" % x] and [f"{x:.3f}"]. *)
Definition format_3f (x : float) : string :=
  match Prim2SF x with
  | S754_nan => "nan"%string
  | S754_infinity s => if s then "-inf"%string else "inf"%string
  | S754_zero s => if s then "-0.000"%string else "0.000"%string
  | S754_finite s m e =>
      ((if s then "-" else "")
       ++ fixed3 (round_half_even (Zpos m * 1000) e))%string
  end.

(** [os.path.split(path)[-1]]: what follows the last slash. *)
Fixpoint path_tail (acc path : string) : string :=
  match path with
  | EmptyString => acc
  | String c rest =>
      if Ascii.eqb c "/" then path_tail EmptyString rest
      else path_tail (acc ++ String c EmptyString)%string rest
  end.

(** The fifth character from the end, where a file name's stem ends before
    a four-character extension. *)
Definition stem_end (s : string) : option ascii :=
  nth_error (rev (list_ascii_of_string s)) 4.

End Fmt.

(** ** Samples *)

Definition vec3 : Type := (float * float * float)%type.

(** The normalised model output, as far as the driver reads it. *)
Record Out : Type := mkOut {
  final_atom_positions : list (list vec3);  (* residue, atom type *)
  plddt : list float;
  iptm_ptm : float                          (* out["iptm+ptm"], one number *)
}.

(** The normalised feature batch, as far as the driver reads it. *)
Record Batch : Type := mkBatch {
  xl : list (list float);                   (* batch['xl'][..., 0] *)
  asym_id : list Z
}.

(** One row of the RDC table. *)
Record RDCRecord : Type := mkRDC {
  residue : Z;
  atom1 : string;
  atom2 : string;
  value : float
}.

(** [np.mean(out["iptm+ptm"])]: the mean of a single number. *)
Definition mean_iptm_ptm (out : Out) : float := iptm_ptm out.

(** ** What the run prints and writes *)

Record Protein : Type := mkProtein {
  features : Batch;
  prediction : Out;
  b_factors : list float
}.

Inductive Content : Type :=
| ToPdb (p : Protein)                       (* protein.to_pdb(p) *)
| RelaxedPdb (p : Protein)                  (* amber_relaxer.process(prot=p) *)
| Pickled (o : Out)
| JsonDump (d : list (string * string)).

Inductive Event : Type :=
| LoadFeatures (seed : Z)
| PrintCrosslink (it : Z) (satisfaction confidence : float)
| PrintRDC (it : Z) (q confidence : float)
| WriteFile (name : string) (c : Content).

(** ** Command line *)

Record Args : Type := mkArgs {
  model_name : string;
  param_path : string;
  data_random_seed : Z;
  times : Z;
  max_recycling_iters : Z;
  num_ensembles : Z;
  cutoff : float;
  sample_templates : bool;
  use_uniprot : bool;
  relax : bool;
  save_raw_output : bool
}.

(** ** Scoring *)

(** [a.detach().cpu().numpy()] on a NumPy array [a]: [detach] is a method
    of torch tensors, and an array has no such attribute. *)
Definition ndarray_detach_cpu_numpy (a : list (list vec3))
  : result (list (list vec3)) :=
  Raise AttributeError.

Section Scoring.

(** [rc.atom_order]: the index of an atom name, [None] for [KeyError]. *)
Variable atom_order : string -> option nat.
(** NumPy's reductions. *)
Variable np_mean : list float -> float.
Variable np_linalg_norm : vec3 -> float.
(** [get_pairwise_distances] on the CA coordinates of an output. *)
Variable ca_distances : Out -> list (list float).

Definition sub3 (a b : vec3) : vec3 :=
  let '(ax, ay, az) := a in
  let '(bx, by_, bz) := b in
  (ax - bx, ay - by_, az - bz)%float.

Definition square (x : float) : float := (x * x)%float.

(** The body of the [try] for one row: [None] when an exception is caught
    (an atom name that is no key, an index out of bounds), else the
    difference and the measured value that are appended. *)
Definition rdc_row (coords_np : list (list vec3)) (row : RDCRecord)
  : option (float * float) :=
  let res_idx := residue row - 1 in
  match atom_order (atom1 row) with
  | None => None
  | Some a1_idx =>
  match atom_order (atom2 row) with
  | None => None
  | Some a2_idx =>
  match Py.index coords_np res_idx with
  | None => None
  | Some atoms =>
  match nth_error atoms a2_idx, nth_error atoms a1_idx with
  | Some p2, Some p1 =>
      let vec := sub3 p2 p1 in
      let angle := (snd vec / np_linalg_norm vec)%float in
      let pred_rdc := square angle in
      Some ((pred_rdc - value row)%float, value row)
  | _, _ => None
  end end end end.

(** The [for] loop over the rows, with its two accumulators. *)
Fixpoint rdc_rows (coords_np : list (list vec3)) (rows : list RDCRecord)
    (diffs values : list float) : list float * list float :=
  match rows with
  | [] => (diffs, values)
  | row :: rest =>
      match rdc_row coords_np row with
      | Some (d, v) => rdc_rows coords_np rest (diffs ++ [d]) (values ++ [v])
      | None => rdc_rows coords_np rest diffs values
      end
  end.

(** [compute_q_factor], a function local to the loop body and called there
    once, on a NumPy array (see [q_factor_of]).  Its first statement, the
    conversion of [pred_coords], stands before the loop over the rows and
    outside the [try]: what it raises leaves the function. *)
Definition compute_q_factor (pred_coords : list (list vec3))
    (rdc_df : list RDCRecord) : result float :=
  coords_np <- ndarray_detach_cpu_numpy pred_coords ;;
  let '(diffs, values) := rdc_rows coords_np rdc_df [] [] in
  if (List.length values =? 0)%nat then Ok infinity
  else
    Ok (PrimFloat.sqrt (np_mean (map square diffs))
        / PrimFloat.sqrt (np_mean (map square values)))%float.

(** [xl & interface]: the pairs flagged as crosslinked whose residues sit
    on different chains. *)
Definition interface_xl (batch : Batch) : list (list bool) :=
  map (fun '(row, a) =>
         map (fun '(x, b) => (0 <? x)%float && negb (a =? b))
             (combine row (asym_id batch)))
      (combine (xl batch) (asym_id batch)).

(** [t[mask]]: the entries of [t] where [mask] holds. *)
Definition masked {A : Type} (t : list (list A)) (mask : list (list bool))
  : list A :=
  List.concat
    (map (fun '(row, mrow) =>
            map fst (filter snd (combine row mrow)))
         (combine t mask)).

Definition count_true (l : list bool) : Z :=
  Z.of_nat (List.length (filter (fun b => b) l)).

(** [d <= args.cutoff] for an entry [d] of a float32 tensor: torch compares
    at the type of the tensor, with the cutoff rounded to binary32. *)
Definition within (cutoff d : float) : bool :=
  (d <=? F32.round cutoff)%float.

(** [torch.sum(mask) / 2]: the integer count turned into a float32 number
    and divided by 2. *)
Definition half (count : Z) : float :=
  F32.round (F32.of_Z count / 2).

(** The numbers of satisfied and of all interface crosslinks. *)
Definition satisfied (cutoff : float) (batch : Batch) (out : Out) : float :=
  let distances := ca_distances out in
  half (count_true
          (map (within cutoff) (masked distances (interface_xl batch)))).

Definition total_xl (batch : Batch) : float :=
  half (count_true (List.concat (interface_xl batch))).

End Scoring.

(** ** The driver *)

(** What the driver imports and calls: library functions, the feature
    pipeline and the model. *)
Record World : Type := mkWorld {
  (** [rc.atom_order]: the index of an atom name, [None] for [KeyError]. *)
  atom_order : string -> option nat;
  (** NumPy's reductions, and [str] on a NumPy number. *)
  np_mean : list float -> float;
  np_linalg_norm : vec3 -> float;
  str_float : float -> string;
  (** [get_pairwise_distances] on the CA coordinates of an output. *)
  ca_distances : Out -> list (list float);
  (** The interpreter's [hash] on a pair of integers. *)
  py_hash : Z * Z -> Z;
  (** The feature pipeline, by seed, the other arguments being those of the
      run. *)
  FeatureBatch : Type;
  load_feature_for_one_target : Z -> FeatureBatch;
  (** Chunk configuration, the model call and the normalisation of batch and
      output (the body of the loop up to the scoring). *)
  infer : FeatureBatch -> Batch * Out;
  (** [config.model.is_multimer]. *)
  is_multimer : bool
}.

Record State : Type := mkState {
  seed : Z;
  best_out : option Out;
  best_iptm : float;
  best_q_score : option float;              (* [None]: not yet bound *)
  best_seed : option Z;
  batch : option Batch;                     (* [None]: not yet bound *)
  events : list Event
}.

Section Driver.

Variable w : World.
Variable args : Args.

Definition derived_seed (base_seed index : Z) : Z :=
  py_hash w (base_seed, index) mod 100000.

Definition initial : State :=
  mkState 0 None 0%float None None None [].

Definition cur_param_path_postfix : string :=
  Fmt.path_tail EmptyString (param_path args).

Definition name_postfix : string :=
  ((if sample_templates args then "_st" else "")
   ++ (if negb (is_multimer w) && use_uniprot args then "_uni" else "")
   ++ (if (max_recycling_iters args =? 3)%Z then ""
       else "_r" ++ Fmt.str_int (max_recycling_iters args))
   ++ (if (num_ensembles args =? 2)%Z then ""
       else "_e" ++ Fmt.str_int (num_ensembles args)))%string.

(** The name of the structure file of one iteration. *)
Definition iteration_save_name (cur_seed : Z) (out : Out) : string :=
  ("AlphaLink2_" ++ Fmt.str_int cur_seed ++ "_"
   ++ Fmt.format_3f (mean_iptm_ptm out) ++ ".pdb")%string.

(** The test [best_out is None or q_score < best_q_score]. *)
Definition rdc_better (st : State) (q_score : float) : result bool :=
  match best_out st with
  | None => Ok true
  | Some _ =>
      match best_q_score st with
      | Some best => Ok (q_score <? best)%float
      | None => Raise NameError
      end
  end.

(** The test [best_out is None or np.mean(out["iptm+ptm"]) > best_iptm]. *)
Definition confidence_better (st : State) (out : Out) : bool :=
  match best_out st with
  | None => true
  | Some _ => (best_iptm st <? mean_iptm_ptm out)%float
  end.

(** [compute_q_factor(out["final_atom_positions"][..., :], rdc_df)]: the
    outputs are NumPy arrays by then ([np.array(x.cpu())] over [out], before
    the scoring), and a slice of an array is an array. *)
Definition q_factor_of (rdc_df : list RDCRecord) (out : Out) : result float :=
  compute_q_factor (atom_order w) (np_mean w) (np_linalg_norm w)
    (final_atom_positions out) rdc_df.

(** [satisfied / total_xl], a division of float32 tensors. *)
Definition satisfaction (b : Batch) (out : Out) : float :=
  F32.round (satisfied (ca_distances w) (cutoff args) b out / total_xl b).

Definition log (st : State) (line : Event) : State :=
  mkState (seed st) (best_out st) (best_iptm st) (best_q_score st)
    (best_seed st) (batch st) (events st ++ [line]).

(** The branch taken with an RDC table. *)
Definition select_rdc (rdc_df : list RDCRecord) (st : State)
    (it cur_seed : Z) (out : Out) : result State :=
  q_score <- q_factor_of rdc_df out ;;
  let st := log st (PrintRDC it q_score (mean_iptm_ptm out)) in
  better <- rdc_better st q_score ;;
  if (better : bool) then
    Ok (mkState (seed st) (Some out) (best_iptm st) (Some q_score)
          (Some cur_seed) (batch st) (events st))
  else Ok st.

(** The branch taken without one. *)
Definition select_crosslink (st : State) (it cur_seed : Z) (b : Batch)
    (out : Out) : State :=
  let st :=
    log st (PrintCrosslink it (satisfaction b out) (mean_iptm_ptm out)) in
  if confidence_better st out then
    mkState (seed st) (Some out) (mean_iptm_ptm out) (best_q_score st)
      (Some cur_seed) (batch st) (events st)
  else st.

Definition select (rdc_df : option (list RDCRecord)) (st : State)
    (it cur_seed : Z) (b : Batch) (out : Out) : result State :=
  match rdc_df with
  | Some df => select_rdc df st it cur_seed out
  | None => Ok (select_crosslink st it cur_seed b out)
  end.

(** [plddt_b_factors * 100] on the float32 array of the pLDDT. *)
Definition times_100 (plddt : list float) : list float :=
  map (fun p => F32.round (p * 100)) plddt.

(** What one iteration writes, whatever the selection decided. *)
Definition iteration_files (cur_seed : Z) (b : Batch) (out : Out)
  : list Event :=
  let cur_protein := mkProtein b out (times_100 (plddt out)) in
  let cur_save_name := iteration_save_name cur_seed out in
  WriteFile cur_save_name (ToPdb cur_protein)
  :: (if save_raw_output args
      then [WriteFile (cur_save_name ++ "_outputs.pkl.gz") (Pickled out)]
      else []).

(** The body of [for it in range(args.times)]. *)
Definition iteration (rdc_df : option (list RDCRecord)) (st : State) (it : Z)
  : result State :=
  let cur_seed := derived_seed (data_random_seed args) (seed st) in
  let feats := load_feature_for_one_target w cur_seed in
  let '(b, out) := infer w feats in
  let st1 :=
    mkState (seed st + 1) (best_out st) (best_iptm st) (best_q_score st)
      (best_seed st) (Some b) (events st ++ [LoadFeatures cur_seed]) in
  st2 <- select rdc_df st1 it cur_seed b out ;;
  Ok (mkState (seed st2) (best_out st2) (best_iptm st2) (best_q_score st2)
        (best_seed st2) (batch st2)
        (events st2 ++ iteration_files cur_seed b out)).

Fixpoint loop (rdc_df : option (list RDCRecord)) (its : list Z) (st : State)
  : result State :=
  match its with
  | [] => Ok st
  | it :: rest => st' <- iteration rdc_df st it ;; loop rdc_df rest st'
  end.

(** [range(n)]. *)
Definition range (n : Z) : list Z :=
  map Z.of_nat (seq 0 (Z.to_nat n)).

(** The name under which the best sample is reported. *)
Definition best_save_name (st : State) (out : Out) : string :=
  ("AlphaLink2_" ++ cur_param_path_postfix ++ "_"
   ++ Fmt.str_opt_int (best_seed st) ++ "_"
   ++ Fmt.format_3f (mean_iptm_ptm out))%string.

Definition score_name : string :=
  (model_name args ++ "_" ++ cur_param_path_postfix ++ "_"
   ++ Fmt.str_int (data_random_seed args) ++ "_"
   ++ Fmt.str_int (times args) ++ name_postfix)%string.

(** The statements after the loop: what they write. *)
Definition finish (st : State) : result (list Event) :=
  match best_out st with
  | None => Raise TypeError                 (* out["plddt"] on None *)
  | Some out =>
      let mean_plddt := np_mean w (plddt out) in
      match batch st with
      | None => Raise NameError
      | Some b =>
          let cur_protein := mkProtein b out (plddt out) in
          let cur_save_name := best_save_name st out in
          let plddts := [(cur_save_name, str_float w mean_plddt)] in
          let ptms :=
            if is_multimer w
            then [(cur_save_name, str_float w (mean_iptm_ptm out))]
            else [] in
          Ok ((if relax args
               then [WriteFile (cur_save_name ++ "_best.pdb")
                       (RelaxedPdb cur_protein)]
               else [])
              ++ [WriteFile (score_name ++ "_plddt.json") (JsonDump plddts)]
              ++ (match ptms with
                  | [] => []
                  | _ :: _ =>
                      [WriteFile (score_name ++ "_ptm.json") (JsonDump ptms)]
                  end))
      end
  end.

(** The state the loop leaves, and the whole run: all it printed and
    wrote. *)
Definition run_loop (rdc_df : option (list RDCRecord)) : result State :=
  loop rdc_df (range (times args)) initial.

Definition main (rdc_df : option (list RDCRecord)) : result (list Event) :=
  st <- run_loop rdc_df ;;
  written <- finish st ;;
  Ok (events st ++ written).

(** The state after the first [n] iterations. *)
Definition after (rdc_df : option (list RDCRecord)) (n : nat) : result State :=
  loop rdc_df (map Z.of_nat (seq 0 n)) initial.

(** The seed and the sample of an iteration. *)
Definition seed_at (index : nat) : Z :=
  derived_seed (data_random_seed args) (Z.of_nat index).

Definition sample (index : nat) : Batch * Out :=
  infer w (load_feature_for_one_target w (seed_at index)).

(** What the run has printed and written when the loop ends or raises.
    The body raises in its scoring, before the scoring prints, when the
    features of the iteration have been loaded. *)
Fixpoint loop_events (rdc_df : option (list RDCRecord)) (its : list Z)
    (st : State) : list Event :=
  match its with
  | [] => events st
  | it :: rest =>
      match iteration rdc_df st it with
      | Ok st' => loop_events rdc_df rest st'
      | Raise _ =>
          events st
          ++ [LoadFeatures (derived_seed (data_random_seed args) (seed st))]
      end
  end.

Definition run_events (rdc_df : option (list RDCRecord)) : list Event :=
  loop_events rdc_df (range (times args)) initial.

(** *** Vocabulary of the properties: runs without an RDC table *)

(** What iteration [n] prints and writes; no running state enters. *)
Definition iteration_log (n : nat) : list Event :=
  let b := fst (sample n) in
  let out := snd (sample n) in
  LoadFeatures (seed_at n)
  :: PrintCrosslink (Z.of_nat n) (satisfaction b out) (iptm_ptm out)
  :: iteration_files (seed_at n) b out.

(** The running best is the sample of iteration [i], with its
    confidence. *)
Definition scored (st : State) (i : nat) : Prop :=
  best_out st = Some (snd (sample i))
  /\ best_seed st = Some (seed_at i)
  /\ best_iptm st = iptm_ptm (snd (sample i)).

(** The running best of [st'] is that of [st]. *)
Definition same_best (st st' : State) : Prop :=
  best_out st' = best_out st
  /\ best_iptm st' = best_iptm st
  /\ best_q_score st' = best_q_score st
  /\ best_seed st' = best_seed st.

(** The strict order of the selection: a higher confidence is better. *)
Definition better (x y : float) : bool := (y <? x)%float.

(** Where the state stands after [n] iterations: the counter, all that was
    printed and written, the last batch, and a running best that is the
    first sample or one that won a strict comparison, and against which no
    later sample won. *)
Definition settled (n : nat) (st : State) : Prop :=
  seed st = Z.of_nat n
  /\ events st = flat_map iteration_log (seq 0 n)
  /\ match n with
     | O => best_out st = None
     | S m =>
         batch st = Some (fst (sample m))
         /\ exists i,
              (i <= m)%nat
              /\ scored st i
              /\ (i = 0%nat
                  \/ exists s, better (iptm_ptm (snd (sample i))) s = true)
              /\ forall j,
                   (i < j <= m)%nat ->
                   better (iptm_ptm (snd (sample j)))
                     (iptm_ptm (snd (sample i))) = false
     end.

(** The structure file of iteration [n]. *)
Definition iteration_structure (n : nat) : Event :=
  let b := fst (sample n) in
  let out := snd (sample n) in
  WriteFile (iteration_save_name (seed_at n) out)
    (ToPdb (mkProtein b out (times_100 (plddt out)))).

(** What the statements after the loop write, for a best output [out] and
    the batch [b] the variable [batch] holds then. *)
Definition final_log (st : State) (b : Batch) (out : Out) : list Event :=
  (if relax args
   then [WriteFile (best_save_name st out ++ "_best.pdb")
           (RelaxedPdb (mkProtein b out (plddt out)))]
   else [])
  ++ [WriteFile (score_name ++ "_plddt.json")
        (JsonDump
           [(best_save_name st out,
             str_float w (np_mean w (plddt out)))])]
  ++ (if is_multimer w
      then [WriteFile (score_name ++ "_ptm.json")
              (JsonDump
                 [(best_save_name st out, str_float w (mean_iptm_ptm out))])]
      else []).

End Driver.

(** The seeds handed to the feature pipeline, in order. *)
Definition loaded_seeds (evs : list Event) : list Z :=
  flat_map (fun e => match e with LoadFeatures s => [s] | _ => [] end) evs.

(** ** The rows of a table that are scored *)

(** The rows the loop of [compute_q_factor] does not skip, in the order of
    the table. *)
Definition kept_rows (atom_order : string -> option nat)
    (np_linalg_norm : vec3 -> float) (coords : list (list vec3))
    (rdc_df : list RDCRecord) : list RDCRecord :=
  filter (fun row =>
            match rdc_row atom_order np_linalg_norm coords row with
            | Some _ => true
            | None => false
            end)
         rdc_df.

(** ** Dictionaries keyed by strings *)

Module Keys.

(** Whether a character occurs in a string. *)
Fixpoint has_char (c : ascii) (s : string) : bool :=
  match s with
  | EmptyString => false
  | String c' rest => Ascii.eqb c' c || has_char c rest
  end.

(** [s.split(sep)] for a separator of one character. *)
Fixpoint split (sep : ascii) (s : string) : list string :=
  match s with
  | EmptyString => [EmptyString]
  | String c rest =>
      if Ascii.eqb c sep then EmptyString :: split sep rest
      else match split sep rest with
           | [] => [String c EmptyString]
           | first :: others => String c first :: others
           end
  end.

(** [sep.join(parts)]. *)
Definition join (sep : string) (parts : list string) : string :=
  String.concat sep parts.

(** A dictionary as the list of its items, in insertion order. *)
Definition dict (V : Type) : Type := list (string * V).

(** [d.get(k)]. *)
Fixpoint dict_get {V : Type} (k : string) (d : dict V) : option V :=
  match d with
  | [] => None
  | (k', v) :: rest => if String.eqb k' k then Some v else dict_get k rest
  end.

(** [d[k] = v]: in place when the key is there, appended otherwise. *)
Fixpoint dict_set {V : Type} (k : string) (v : V) (d : dict V) : dict V :=
  match d with
  | [] => [(k, v)]
  | (k', v') :: rest =>
      if String.eqb k' k then (k', v) :: rest
      else (k', v') :: dict_set k v rest
  end.

(** [{f(k): v for k, v in d.items()}]. *)
Definition rekey {V : Type} (f : string -> string) (d : dict V) : dict V :=
  fold_left (fun acc kv => dict_set (f (fst kv)) (snd kv) acc) d [].

(** [{k: v for k, v in d.items() if keep(k)}]. *)
Definition only {V : Type} (keep : string -> bool) (d : dict V) : dict V :=
  filter (fun kv => keep (fst kv)) d.

(** The key of a parameter once its first dotted component is dropped:
    [".".join(k.split(".")[1:])]. *)
Definition strip_first (k : string) : string :=
  join "."%string (tl (split "."%char k)).

(** The rewrite of the checkpoint's parameter dictionary. *)
Definition load_params {V : Type} (state_dict : dict V) : dict V :=
  rekey strip_first state_dict.

(** The fields of the raw output that are kept without
    [--save_raw_output]. *)
Definition score_keys : list string :=
  ["plddt"; "ptm"; "iptm"; "iptm+ptm"]%string.

Definition kept_key (k : string) : bool :=
  String.prefix "final_"%string k || existsb (String.eqb k) score_keys.

Definition filter_output {V : Type} (save_raw_output : bool)
    (raw_out : dict V) : dict V :=
  if save_raw_output then raw_out else only kept_key raw_out.

(** The last item of a dictionary whose key [f] sends to [k]. *)
Fixpoint last_sent {V : Type} (f : string -> string) (k : string)
    (d : dict V) : option V :=
  match d with
  | [] => None
  | (k', v) :: rest =>
      match last_sent f k rest with
      | Some v' => Some v'
      | None => if String.eqb (f k') k then Some v else None
      end
  end.

End Keys.

(** ** The request to the feature pipeline *)

Module Load.

(** What [load_and_process] is called with, as far as it varies. *)
Record Request : Type := mkRequest {
  seed : Z;
  sequence_ids : list string;
  monomer_feature_dir : string;
  uniprot_msa_dir : option string;
  is_monomer : bool;
  crosslinks : string;
  neff : Z;
  dropout_crosslinks : Z
}.

(** [os.path.join(folder, name)] for a relative [name]. *)
Definition path_join (folder name : string) : string :=
  match folder with
  | EmptyString => name
  | _ =>
      if Keys.has_char "/"%char
           (substring (String.length folder - 1) 1 folder)
      then (folder ++ name)%string
      else (folder ++ "/" ++ name)%string
  end.

Section Pipeline.

(** The words of the first line of a file, [None] when it cannot be
    opened. *)
Variable first_line_words : string -> option (list string).
(** [load_and_process] at the run's configuration in mode [predict] (its
    first result), and [UnifoldDataset.collater]. *)
Variable Features : Type.
Variable load_and_process : Request -> Features.
Variable collater : list Features -> Features.

(** [load_feature_for_one_target]; [None] stands for the [OSError] of
    [open]. *)
Definition load_feature_for_one_target
    (data_folder crosslinks : string) (seed : Z)
    (is_multimer use_uniprot : bool) (neff dropout_crosslinks : Z)
  : option Features :=
  let prepared :=
    if negb is_multimer then
      Some (if use_uniprot then Some data_folder else None, ["A"%string])
    else
      match first_line_words (path_join data_folder "chains.txt"%string) with
      | Some ids => Some (Some data_folder, ids)
      | None => None
      end in
  match prepared with
  | None => None
  | Some (uniprot_msa_dir, sequence_ids) =>
      let batch :=
        load_and_process
          (mkRequest seed sequence_ids data_folder uniprot_msa_dir
             (negb is_multimer) crosslinks neff dropout_crosslinks) in
      Some (collater [batch])
  end.

End Pipeline.

End Load.

(** ** A small world to run the driver in

    Stand-ins for what the driver imports, and a handful of samples: two
    chains of two residues each, three atoms per residue. *)

Module Demo.

(** The head of the atom-name vocabulary. *)
Definition atom_order (name : string) : option nat :=
  if String.eqb name "N" then Some 0%nat
  else if String.eqb name "CA" then Some 1%nat
  else if String.eqb name "C" then Some 2%nat
  else None.

Definition np_mean (l : list float) : float :=
  (fold_left PrimFloat.add l 0 / Py.float_of_Z (Z.of_nat (List.length l)))%float.

Definition np_linalg_norm (v : vec3) : float :=
  let '(x, y, z) := v in PrimFloat.sqrt (x * x + y * y + z * z)%float.

Definition ca_of (atoms : list vec3) : vec3 :=
  nth 1 atoms (0, 0, 0)%float.

Definition ca_distances (out : Out) : list (list float) :=
  let cas := map ca_of (final_atom_positions out) in
  map (fun a => map (fun b => np_linalg_norm (sub3 a b)) cas) cas.

Definition py_hash (p : Z * Z) : Z := fst p * 1000003 + snd p.

(** A residue whose CA sits at [(x, y, 0)], its N one below along z. *)
Definition residue_at (x y : float) : list vec3 :=
  [ (x, y, -1); (x, y, 0); (x + 1, y, 0) ]%float.

(** The same with the N beside the CA along x. *)
Definition residue_flat (x y : float) : list vec3 :=
  [ (x - 1, y, 0); (x, y, 0); (x + 1, y, 0) ]%float.

(** Chain 1 holds residues 1 and 2, chain 2 residues 3 and 4; the CA atoms of
    residues 1 and 3 are 20 apart, those of residues 2 and 4 are 30 apart. *)
Definition positions : list (list vec3) :=
  [ residue_at 0 0; residue_at 0 100; residue_at 20 0; residue_flat 30 100 ]%float.

Definition out_with (confidence : float) : Out :=
  mkOut positions [0.5; 0.5; 0.5; 0.5]%float confidence.

(** Crosslinks 1-3 and 2-4 across the interface, both directions flagged. *)
Definition batch_xl : Batch :=
  mkBatch [ [0; 0; 1; 0]; [0; 0; 0; 1]; [1; 0; 0; 0]; [0; 1; 0; 0] ]%float
          [1; 1; 2; 2].

(** The same crosslinks with all residues on one chain: no interface pair. *)
Definition batch_one_chain : Batch :=
  mkBatch [ [0; 0; 1; 0]; [0; 0; 0; 1]; [1; 0; 0; 0]; [0; 1; 0; 0] ]%float
          [1; 1; 1; 1].

(** No crosslink at all. *)
Definition batch_no_xl : Batch :=
  mkBatch [ [0; 0; 0; 0]; [0; 0; 0; 0]; [0; 0; 0; 0]; [0; 0; 0; 0] ]%float
          [1; 1; 2; 2].

(** The feature pipeline hands the seed on, and the model answers by a table
    over the iteration's seed; base seed 42 gives the seeds 126, 127, ... *)
Definition infer_table (table : list (Batch * Out)) (seed : Z) : Batch * Out :=
  nth (Z.to_nat (seed - 126)) table (batch_no_xl, out_with 0).

Definition world (table : list (Batch * Out)) : World :=
  mkWorld atom_order np_mean np_linalg_norm Fmt.format_3f ca_distances py_hash
    Z (fun s => s) (infer_table table) true.

Definition args_with (n : Z) (with_relax : bool) : Args :=
  mkArgs "multimer_af2_crop" "weights/AlphaLink-Multimer_SDA_v3.pt" 42 n 20 1
         25 false false with_relax false.

(** The same run with another cutoff. *)
Definition args_cutoff (n : Z) (c : float) : Args :=
  mkArgs "multimer_af2_crop" "weights/AlphaLink-Multimer_SDA_v3.pt" 42 n 20 1
         c false false false false.

(** Three samples; the same outputs over other batches; a run whose first
    sample wins; a run whose first confidence is a NaN. *)
Definition table_a : list (Batch * Out) :=
  [ (batch_xl, out_with 0.5); (batch_one_chain, out_with 0.9);
    (batch_no_xl, out_with 0.7) ].

Definition table_b : list (Batch * Out) :=
  [ (batch_no_xl, out_with 0.5); (batch_xl, out_with 0.9);
    (batch_one_chain, out_with 0.7) ].

Definition table_first_wins : list (Batch * Out) :=
  [ (batch_xl, out_with 0.9); (batch_one_chain, out_with 0.5) ].

Definition table_nan_first : list (Batch * Out) :=
  [ (batch_xl, out_with nan); (batch_xl, out_with 0.9) ].

(** A device with 40 GiB. *)
Definition cuda_40g : Cuda := mkCuda true (40 * 1024 * 1024 * 1024).

(** RDC rows: a usable one, one with an atom name outside the vocabulary,
    and one past the last residue. *)
Definition row_ok : RDCRecord := mkRDC 1 "N" "CA" 0.25.
Definition row_bad_atom : RDCRecord := mkRDC 1 "N" "H" 0.25.
Definition row_past_end : RDCRecord := mkRDC 5 "N" "CA" 0.25.

End Demo.

(** * Properties *)

(** ** Comparisons of binary64 numbers *)

Module FloatFacts.

Lemma SFcompare_swap (x y : spec_float) :
  SFcompare y x = option_map CompOpp (SFcompare x y).
Proof.
  destruct x as [sx | sx | | sx mx ex], y as [sy | sy | | sy my ey];
    cbn; try reflexivity;
    try (destruct sx; reflexivity); try (destruct sy; reflexivity);
    try (destruct sx, sy; reflexivity).
  change (PosDef.Pos.compare_cont Eq my mx) with (Pos.compare my mx).
  change (PosDef.Pos.compare_cont Eq mx my) with (Pos.compare mx my).
  rewrite (Z.compare_antisym ex ey), (Pos.compare_antisym mx my).
  destruct sx, sy; cbn; try reflexivity;
    destruct (ex ?= ey); cbn; try reflexivity;
    destruct (Pos.compare mx my); reflexivity.
Qed.

Lemma SFcompare_refl (x : spec_float) :
  x <> S754_nan -> SFcompare x x = Some Eq.
Proof.
  destruct x as [s | s | | s m e]; cbn; intros H;
    try reflexivity; try (destruct s; reflexivity); try congruence.
  rewrite Z.compare_refl.
  change (Pos.compare_cont Eq m m) with (Pos.compare m m).
  rewrite Pos.compare_refl. destruct s; reflexivity.
Qed.

(** [x < y] excludes [y < x]. *)
Lemma ltb_asym (x y : float) :
  (x <? y)%float = true -> (y <? x)%float = false.
Proof.
  rewrite !ltb_spec. unfold SFltb.
  rewrite (SFcompare_swap (Prim2SF x) (Prim2SF y)).
  destruct (SFcompare (Prim2SF x) (Prim2SF y)) as [[ | | ] | ];
    cbn; congruence.
Qed.

Lemma ltb_irrefl (x : float) : (x <? x)%float = false.
Proof.
  destruct (x <? x)%float eqn:H; [ | reflexivity ].
  rewrite (ltb_asym _ _ H) in H. discriminate.
Qed.

(** Equal numbers are not ordered, in either direction. *)
Lemma eqb_not_ltb (x y : float) :
  (x =? y)%float = true -> (x <? y)%float = false /\ (y <? x)%float = false.
Proof.
  rewrite !ltb_spec, eqb_spec. unfold SFltb, SFeqb.
  rewrite (SFcompare_swap (Prim2SF x) (Prim2SF y)).
  destruct (SFcompare (Prim2SF x) (Prim2SF y)) as [[ | | ] | ];
    cbn; intros; split; congruence.
Qed.

Lemma is_nan_Prim2SF (x : float) :
  is_nan x = true -> Prim2SF x = S754_nan.
Proof.
  unfold is_nan. rewrite eqb_spec. unfold SFeqb. intros H.
  destruct (Prim2SF x) as [s | s | | s m e] eqn:E; try reflexivity;
    rewrite SFcompare_refl in H by discriminate; discriminate.
Qed.

(** A NaN is not ordered with anything. *)
Lemma nan_not_ltb (x y : float) :
  is_nan x = true -> (x <? y)%float = false /\ (y <? x)%float = false.
Proof.
  intros H. apply is_nan_Prim2SF in H.
  rewrite !ltb_spec, H. unfold SFltb.
  split; [ reflexivity | ].
  destruct (Prim2SF y) as [s | s | | s m e]; reflexivity.
Qed.

(** Nothing lies above the positive infinity. *)
Lemma infinity_not_ltb (y : float) : (infinity <? y)%float = false.
Proof.
  rewrite ltb_spec.
  change (Prim2SF infinity) with (S754_infinity false).
  unfold SFltb.
  destruct (Prim2SF y) as [s | s | | s m e]; cbn;
    try reflexivity; destruct s; reflexivity.
Qed.

End FloatFacts.

(** ** The loop, one iteration at a time *)

Section DriverFacts.

Variable w : World.
Variable args : Args.

Abbreviation sample_ := (sample w args).
Abbreviation seed_ := (seed_at w args).
Abbreviation conf i := (iptm_ptm (snd (sample w args i))).

Lemma loop_app rdc_df (l1 l2 : list Z) (st : State) :
  loop w args rdc_df (l1 ++ l2) st
  = (st' <- loop w args rdc_df l1 st ;; loop w args rdc_df l2 st').
Proof.
  revert st. induction l1 as [ | it l1 IH]; intros st; cbn; [ reflexivity | ].
  destruct (iteration w args rdc_df st it); cbn; [ apply IH | reflexivity ].
Qed.

Lemma after_S rdc_df (n : nat) :
  after w args rdc_df (S n)
  = (st <- after w args rdc_df n ;; iteration w args rdc_df st (Z.of_nat n)).
Proof.
  unfold after. rewrite seq_S, map_app, loop_app. cbn.
  destruct (loop w args rdc_df (map Z.of_nat (seq 0 n)) (initial)); cbn;
    [ | reflexivity ].
  destruct (iteration w args rdc_df a (Z.of_nat n)); reflexivity.
Qed.

Lemma run_loop_after rdc_df :
  run_loop w args rdc_df = after w args rdc_df (Z.to_nat (times args)).
Proof. reflexivity. Qed.

(** *** Without an RDC table *)

(** The first iteration installs its sample, whatever its confidence. *)
Lemma iteration_first (st : State) (n : nat) :
  seed st = Z.of_nat n ->
  best_out st = None ->
  exists st',
    iteration w args None st (Z.of_nat n) = Ok st'
    /\ seed st' = Z.of_nat (S n)
    /\ batch st' = Some (fst (sample_ n))
    /\ events st' = events st ++ iteration_log w args n
    /\ scored w args st' n.
Proof.
  intros Hseed Hnone.
  unfold iteration, scored, iteration_log, sample, seed_at.
  rewrite Hseed.
  destruct (infer w _) as [b out]; cbn [fst snd].
  cbn [select bind].
  unfold select_crosslink, confidence_better, log, mean_iptm_ptm.
  cbn [best_out best_iptm best_q_score best_seed batch events seed].
  rewrite Hnone.
  eexists. split; [ reflexivity | ].
  cbn [best_out best_iptm best_q_score best_seed batch events seed].
  rewrite <- !app_assoc.
  repeat split; try reflexivity; lia.
Qed.

(** A later iteration replaces the running best exactly when the
    confidence of its sample is above the running one. *)
Lemma iteration_next (st : State) (n : nat) :
  seed st = Z.of_nat n ->
  best_out st <> None ->
  exists st',
    iteration w args None st (Z.of_nat n) = Ok st'
    /\ seed st' = Z.of_nat (S n)
    /\ batch st' = Some (fst (sample_ n))
    /\ events st' = events st ++ iteration_log w args n
    /\ (if (best_iptm st <? conf n)%float
        then scored w args st' n
        else same_best st st').
Proof.
  intros Hseed Hsome.
  unfold iteration, scored, same_best, iteration_log, sample, seed_at.
  rewrite Hseed.
  destruct (infer w _) as [b out]; cbn [fst snd].
  destruct (best_out st) as [old | ] eqn:Hold; [ clear Hsome | congruence ].
  cbn [select bind].
  unfold select_crosslink, confidence_better, log, mean_iptm_ptm.
  cbn [best_out best_iptm best_q_score best_seed batch events seed].
  destruct (best_iptm st <? iptm_ptm out)%float;
    (eexists; split; [ reflexivity | ]);
    cbn [best_out best_iptm best_q_score best_seed batch events seed];
    rewrite <- !app_assoc;
    repeat split; try reflexivity; try assumption; lia.
Qed.

Lemma scored_same_best (st st' : State) (i : nat) :
  same_best st st' -> scored w args st i -> scored w args st' i.
Proof.
  unfold same_best, scored.
  intros (Ho & Hi & Hq & Hs) (So & Ss & Sc).
  rewrite Ho, Hs, Hi. auto.
Qed.

Lemma scored_bound (st : State) (i : nat) :
  scored w args st i -> best_out st <> None /\ best_iptm st = conf i.
Proof.
  unfold scored. intros (So & _ & Sc). split; congruence.
Qed.

Lemma flat_map_seq_S {A : Type} (f : nat -> list A) (n : nat) :
  flat_map f (seq 0 (S n)) = flat_map f (seq 0 n) ++ f n.
Proof.
  rewrite seq_S, flat_map_app. cbn. now rewrite app_nil_r.
Qed.

(** Without an RDC table the loop never raises, and keeps [settled]. *)
Lemma after_settled (n : nat) :
  exists st, after w args None n = Ok st /\ settled w args n st.
Proof.
  induction n as [ | n (st & Hst & Hseed & Hev & Hbest)].
  - exists (initial). repeat split.
  - rewrite after_S, Hst. cbn [bind].
    destruct n as [ | m].
    + destruct (iteration_first st 0 Hseed Hbest)
        as (st' & Hit & Hseed' & Hbatch & Hev' & Hsc).
      exists st'. split; [ exact Hit | ].
      split; [ exact Hseed' | ].
      split; [ rewrite Hev', Hev, (flat_map_seq_S _ 0); reflexivity | ].
      split; [ exact Hbatch | ].
      exists 0%nat. split; [ lia | ]. split; [ exact Hsc | ].
      split; [ left; reflexivity | intros j Hj; lia ].
    + destruct Hbest as (_ & i & Hi & Hsc & Hwon & Hlater).
      destruct (scored_bound _ _ Hsc) as [Hsome Hscore].
      destruct (iteration_next st (S m) Hseed Hsome)
        as (st' & Hit & Hseed' & Hbatch & Hev' & Hnew).
      exists st'. split; [ exact Hit | ].
      split; [ exact Hseed' | ].
      split; [ rewrite Hev', Hev, (flat_map_seq_S _ (S m)); reflexivity | ].
      split; [ exact Hbatch | ].
      rewrite Hscore in Hnew.
      destruct (conf i <? conf (S m))%float eqn:Hb.
      * exists (S m). split; [ lia | ]. split; [ exact Hnew | ].
        split; [ right; eexists; exact Hb | intros j Hj; lia ].
      * exists i. split; [ lia | ].
        split; [ apply (scored_same_best st); assumption | ].
        split; [ exact Hwon | ].
        intros j Hj. destruct (Nat.eq_dec j (S m)) as [-> | Hne];
          [ exact Hb | apply Hlater; lia ].
Qed.

Lemma better_asym (x y : float) : better x y = true -> better y x = false.
Proof. apply FloatFacts.ltb_asym. Qed.

Lemma better_irrefl (x : float) : better x x = false.
Proof. apply FloatFacts.ltb_irrefl. Qed.

Lemma tie_not_better (x y : float) :
  (x =? y)%float = true -> better x y = false.
Proof.
  intros H. destruct (FloatFacts.eqb_not_ltb x y H). assumption.
Qed.

(** One more iteration after at least one: both states exist, and the new
    one is decided by the strict comparison with the old confidence. *)
Lemma step_after (k : nat) :
  (1 <= k)%nat ->
  exists st st' i,
    after w args None k = Ok st
    /\ after w args None (S k) = Ok st'
    /\ (i < k)%nat
    /\ scored w args st i
    /\ (if (conf i <? conf k)%float
        then scored w args st' k
        else same_best st st').
Proof.
  intros Hk. destruct k as [ | m]; [ lia | ].
  destruct (after_settled (S m))
    as (st & Hst & Hseed & _ & _ & i & Hi & Hsc & _).
  destruct (scored_bound _ _ Hsc) as [Hsome Hscore].
  destruct (iteration_next st (S m) Hseed Hsome)
    as (st' & Hit & _ & _ & _ & Hnew).
  exists st, st', i.
  split; [ exact Hst | ].
  split; [ rewrite after_S, Hst; exact Hit | ].
  split; [ lia | ].
  split; [ exact Hsc | ].
  rewrite Hscore in Hnew. exact Hnew.
Qed.

(** As long as no later sample has a confidence above that of the first
    one, the first one stays. *)
Lemma first_stays (n : nat) :
  (forall i, (1 <= i < n)%nat -> (conf 0 <? conf i)%float = false) ->
  (1 <= n)%nat ->
  exists st, after w args None n = Ok st /\ scored w args st 0.
Proof.
  induction n as [ | n IH]; intros Hno Hn; [ lia | ].
  destruct n as [ | m].
  - destruct (after_settled 1)
      as (st & Hst & _ & _ & _ & i & Hi & Hsc & _).
    exists st. split; [ exact Hst | ].
    replace i with 0%nat in Hsc by lia. exact Hsc.
  - destruct IH as (st & Hst & Hsc); [ intros; apply Hno; lia | lia | ].
    destruct (step_after (S m))
      as (st0 & st' & i & Hst0 & Hst' & _ & Hsc0 & Hnew); [ lia | ].
    rewrite Hst in Hst0. injection Hst0 as <-.
    destruct (scored_bound _ _ Hsc) as [_ H0].
    destruct (scored_bound _ _ Hsc0) as [_ Hi].
    rewrite H0 in Hi. rewrite <- Hi in Hnew.
    rewrite Hno in Hnew by lia.
    exists st'. split; [ exact Hst' | ].
    apply (scored_same_best st); assumption.
Qed.

(** The events of a loop that returns are those of its last state. *)
Lemma loop_events_ok rdc_df (its : list Z) (st st' : State) :
  loop w args rdc_df its st = Ok st' ->
  loop_events w args rdc_df its st = events st'.
Proof.
  revert st. induction its as [ | it its IH]; intros st; cbn.
  - now intros [= ->].
  - destruct (iteration w args rdc_df st it) as [st1 | e]; cbn;
      [ apply IH | discriminate ].
Qed.

Lemma run_events_crosslink :
  run_events w args None
  = flat_map (iteration_log w args) (seq 0 (Z.to_nat (times args))).
Proof.
  destruct (after_settled (Z.to_nat (times args)))
    as (st & Hst & _ & Hev & _).
  unfold run_events, range. rewrite (loop_events_ok _ _ _ _ Hst). exact Hev.
Qed.

(** *** With an RDC table *)

(** The Q-factor of an output is never computed: the conversion of the
    coordinates raises. *)
Lemma q_factor_of_raises (df : list RDCRecord) (out : Out) :
  q_factor_of w df out = Raise AttributeError.
Proof. reflexivity. Qed.

Lemma iteration_rdc_raises (df : list RDCRecord) (st : State) (it : Z) :
  iteration w args (Some df) st it = Raise AttributeError.
Proof.
  unfold iteration. destruct (infer w _) as [b out]. reflexivity.
Qed.

Lemma after_rdc_raises (df : list RDCRecord) (n : nat) :
  after w args (Some df) (S n) = Raise AttributeError.
Proof.
  unfold after. cbn [seq map loop]. now rewrite iteration_rdc_raises.
Qed.

Lemma run_loop_rdc_raises (df : list RDCRecord) :
  1 <= times args ->
  run_loop w args (Some df) = Raise AttributeError.
Proof.
  intros H. rewrite run_loop_after.
  destruct (Z.to_nat (times args)) as [ | n] eqn:Hn; [ lia | ].
  apply after_rdc_raises.
Qed.

Lemma run_events_rdc (df : list RDCRecord) :
  1 <= times args ->
  run_events w args (Some df) = [LoadFeatures (seed_ 0)].
Proof.
  intros H. unfold run_events, range.
  destruct (Z.to_nat (times args)) as [ | n] eqn:Hn; [ lia | ].
  cbn [seq map loop_events]. now rewrite iteration_rdc_raises.
Qed.

Lemma run_empty rdc_df :
  times args <= 0 ->
  run_loop w args rdc_df = Ok (initial)
  /\ run_events w args rdc_df = [].
Proof.
  intros H. unfold run_loop, run_events, range.
  replace (Z.to_nat (times args)) with 0%nat by lia. split; reflexivity.
Qed.

End DriverFacts.

(** ** File names *)

Module FmtFacts.

Lemma chars_app (s t : string) :
  list_ascii_of_string (s ++ t)
  = list_ascii_of_string s ++ list_ascii_of_string t.
Proof.
  induction s as [ | c s IH]; cbn; [ reflexivity | now rewrite IH ].
Qed.

Lemma stem_end_ext (s : string) (c c1 c2 c3 c4 : ascii) :
  Fmt.stem_end
    (s ++ String c (String c1 (String c2 (String c3 (String c4 "")))))
  = Some c.
Proof.
  unfold Fmt.stem_end. rewrite chars_app, rev_app_distr. reflexivity.
Qed.

Lemma digit_not_t (d : Z) : Fmt.digit d <> "t"%char.
Proof.
  unfold Fmt.digit. intros H.
  apply (f_equal nat_of_ascii) in H.
  pose proof (Z.mod_pos_bound d 10 ltac:(lia)) as Hd.
  rewrite nat_ascii_embedding in H by lia.
  cbn in H. lia.
Qed.

Lemma append_assoc (s t u : string) : ((s ++ t) ++ u = s ++ (t ++ u))%string.
Proof.
  induction s as [ | c s IH]; cbn; [ reflexivity | now rewrite IH ].
Qed.

(** What [format_3f] prints never ends in the letter t. *)
Lemma format_3f_last (x : float) :
  exists s c,
    Fmt.format_3f x = (s ++ String c "")%string /\ c <> "t"%char.
Proof.
  unfold Fmt.format_3f.
  destruct (Prim2SF x) as [sg | sg | | sg m e].
  - destruct sg; [ exists "-0.00"%string | exists "0.00"%string ];
      exists "0"%char; split; [ reflexivity | discriminate | reflexivity
                              | discriminate ].
  - destruct sg; [ exists "-in"%string | exists "in"%string ];
      exists "f"%char; split; [ reflexivity | discriminate | reflexivity
                              | discriminate ].
  - exists "na"%string, "n"%char. split; [ reflexivity | discriminate ].
  - set (n := Fmt.round_half_even (Z.pos m * 1000) e).
    exists ((if sg then "-" else "")
            ++ Fmt.str_int (n / 1000) ++ "."
            ++ String (Fmt.digit (n / 100))
                 (String (Fmt.digit (n / 10)) ""))%string,
           (Fmt.digit n).
    split; [ | apply digit_not_t ].
    unfold Fmt.fixed3. rewrite !append_assoc. reflexivity.
Qed.

End FmtFacts.

(** ** What a run without an RDC table writes *)

Section DriverOutput.

Variable w : World.
Variable args : Args.

Abbreviation sample_ := (sample w args).
Abbreviation seed_ := (seed_at w args).

Lemma finish_final_log (st : State) (b : Batch) (out : Out) :
  best_out st = Some out ->
  batch st = Some b ->
  finish w args st = Ok (final_log w args st b out).
Proof.
  intros Ho Hb. unfold finish, final_log. rewrite Ho, Hb.
  destruct (is_multimer w); reflexivity.
Qed.

(** A run of at least one iteration without an RDC table does not raise: it
    leaves the sample of some iteration [i] as its best, the batch of the
    last iteration in [batch], and has printed and written the logs of all
    iterations and then the final files. *)
Lemma main_settled :
  1 <= times args ->
  exists st i,
    run_loop w args None = Ok st
    /\ (i < Z.to_nat (times args))%nat
    /\ scored w args st i
    /\ batch st = Some (fst (sample_ (Z.to_nat (times args) - 1)))
    /\ main w args None
       = Ok (flat_map (iteration_log w args)
               (seq 0 (Z.to_nat (times args)))
             ++ final_log w args st (fst (sample_ (Z.to_nat (times args) - 1)))
                  (snd (sample_ i))).
Proof.
  intros Htimes. unfold main. rewrite run_loop_after.
  destruct (Z.to_nat (times args)) as [ | m] eqn:Hn; [ lia | ].
  destruct (after_settled w args (S m))
    as (st & Hst & _ & Hev & Hbatch & i & Hi & Hsc & _).
  exists st, i. rewrite Hst. cbn [bind].
  replace (S m - 1)%nat with m by lia.
  split; [ reflexivity | ]. split; [ lia | ]. split; [ exact Hsc | ].
  split; [ exact Hbatch | ].
  destruct Hsc as (Ho & _).
  rewrite (finish_final_log st _ _ Ho Hbatch). cbn [bind].
  rewrite Hev. reflexivity.
Qed.

Lemma iteration_log_structure (n : nat) :
  In (iteration_structure w args n) (iteration_log w args n).
Proof.
  unfold iteration_log, iteration_files, iteration_structure.
  right. right. left. reflexivity.
Qed.

Lemma iteration_log_no_relaxed (n : nat) (name : string) (p : Protein) :
  ~ In (WriteFile name (RelaxedPdb p)) (iteration_log w args n).
Proof.
  unfold iteration_log, iteration_files.
  destruct (save_raw_output args); cbn [In]; intuition discriminate.
Qed.

Lemma best_name_not_iteration_name (st : State) (out out' : Out) (s : Z) :
  (best_save_name args st out ++ "_best.pdb")%string
  <> iteration_save_name s out'.
Proof.
  intros H. apply (f_equal Fmt.stem_end) in H.
  replace (best_save_name args st out ++ "_best.pdb")%string
    with ((best_save_name args st out ++ "_bes")
          ++ String "t" ".pdb")%string in H
    by (rewrite FmtFacts.append_assoc; reflexivity).
  rewrite FmtFacts.stem_end_ext in H.
  unfold iteration_save_name in H.
  destruct (FmtFacts.format_3f_last (mean_iptm_ptm out'))
    as (f & c & Hf & Hc).
  rewrite Hf in H.
  replace ("AlphaLink2_" ++ Fmt.str_int s ++ "_" ++ (f ++ String c "")
           ++ ".pdb")%string
    with (("AlphaLink2_" ++ Fmt.str_int s ++ "_" ++ f)
          ++ String c ".pdb")%string in H
    by (rewrite !FmtFacts.append_assoc; reflexivity).
  rewrite FmtFacts.stem_end_ext in H. congruence.
Qed.

Lemma final_log_relaxed (st : State) (b : Batch) (out : Out)
    (name : string) (p : Protein) :
  In (WriteFile name (RelaxedPdb p)) (final_log w args st b out)
  <-> relax args = true
      /\ name = (best_save_name args st out ++ "_best.pdb")%string
      /\ p = mkProtein b out (plddt out).
Proof.
  unfold final_log.
  destruct (relax args), (is_multimer w); cbn; split;
    intros H; repeat destruct H as [H | H];
    try discriminate; try contradiction;
    try (injection H as <- <-; auto);
    try (destruct H as (H1 & -> & ->); auto; discriminate).
Qed.

Lemma final_log_to_pdb (st : State) (b : Batch) (out : Out)
    (name : string) (p : Protein) :
  ~ In (WriteFile name (ToPdb p)) (final_log w args st b out).
Proof.
  unfold final_log.
  destruct (relax args), (is_multimer w); cbn; intuition discriminate.
Qed.

Lemma final_log_json (st : State) (b : Batch) (out : Out) :
  In (WriteFile (score_name w args ++ "_plddt.json")
        (JsonDump
           [(best_save_name args st out,
             str_float w (np_mean w (plddt out)))]))
     (final_log w args st b out).
Proof.
  unfold final_log. apply in_or_app. right. left. reflexivity.
Qed.

Lemma iteration_log_to_pdb (n : nat) (name : string) (p : Protein) :
  In (WriteFile name (ToPdb p)) (iteration_log w args n) ->
  WriteFile name (ToPdb p) = iteration_structure w args n.
Proof.
  unfold iteration_log, iteration_files, iteration_structure.
  destruct (save_raw_output args); cbn [In];
    intros H; repeat destruct H as [H | H];
    try discriminate; try contradiction; symmetry; exact H.
Qed.

(** C7, as the code has it by design.  A run of at least one iteration
    without an RDC table writes the structure of every iteration's sample
    under a name made of the derived seed and the confidence, whether or not
    the sample becomes the best, and writes no other unrelaxed structure.
    After the loop it writes the JSON summary; the structure of the best
    sample is written once more, relaxed, under a name made of the parameter
    file, the winning seed and the confidence and different from every
    iteration's name, exactly when relaxation is requested. *)
Theorem samples_written_best_written_when_relaxed :
  1 <= times args ->
  exists st out evs,
    run_loop w args None = Ok st
    /\ best_out st = Some out
    /\ main w args None = Ok evs
    /\ (forall n, (n < Z.to_nat (times args))%nat ->
          In (iteration_structure w args n) evs)
    /\ (forall name p, In (WriteFile name (ToPdb p)) evs ->
          exists n, (n < Z.to_nat (times args))%nat
                    /\ WriteFile name (ToPdb p) = iteration_structure w args n)
    /\ (forall name p, In (WriteFile name (RelaxedPdb p)) evs ->
          relax args = true
          /\ name = (best_save_name args st out ++ "_best.pdb")%string
          /\ prediction p = out)
    /\ (relax args = true ->
          exists p,
            In (WriteFile (best_save_name args st out ++ "_best.pdb")
                  (RelaxedPdb p)) evs
            /\ prediction p = out)
    /\ (forall n,
          (best_save_name args st out ++ "_best.pdb")%string
          <> iteration_save_name (seed_ n) (snd (sample_ n)))
    /\ In (WriteFile (score_name w args ++ "_plddt.json")
             (JsonDump
                [(best_save_name args st out,
                  str_float w (np_mean w (plddt out)))])) evs.
Proof.
  intros Htimes.
  destruct (main_settled Htimes)
    as (st & i & Hrun & Hi & Hsc & Hbatch & Hmain).
  exists st, (snd (sample_ i)). eexists.
  split; [ exact Hrun | ].
  split; [ apply Hsc | ].
  split; [ exact Hmain | ].
  split; [ | split; [ | split; [ | split; [ | split ] ] ] ].
  - intros n Hn. apply in_or_app. left.
    apply in_flat_map. exists n.
    split; [ apply in_seq; lia | apply iteration_log_structure ].
  - intros name p H. apply in_app_or in H. destruct H as [H | H].
    + apply in_flat_map in H. destruct H as (n & Hn & H).
      exists n. split; [ apply in_seq in Hn; lia | ].
      apply iteration_log_to_pdb. exact H.
    + exfalso. apply (final_log_to_pdb _ _ _ _ _ H).
  - intros name p H. apply in_app_or in H. destruct H as [H | H].
    + apply in_flat_map in H. destruct H as (n & _ & H).
      exfalso. apply (iteration_log_no_relaxed _ _ _ H).
    + apply final_log_relaxed in H. destruct H as (Hr & Hname & ->).
      auto.
  - intros Hr. eexists. split.
    + apply in_or_app. right. apply final_log_relaxed.
      split; [ exact Hr | split; reflexivity ].
    + reflexivity.
  - intros n. apply best_name_not_iteration_name.
  - apply in_or_app. right. apply final_log_json.
Qed.

(** C8, as the code has it by design.  A run of at least one iteration
    without an RDC table keeps, of all its samples, the output, the seed and
    the confidence of the winning iteration only; no batch is kept with
    them.  The best structure it writes joins the winning output with the
    batch of the last iteration. *)
Theorem best_structure_from_winning_output_and_last_batch :
  1 <= times args ->
  exists st i evs,
    run_loop w args None = Ok st
    /\ main w args None = Ok evs
    /\ (i < Z.to_nat (times args))%nat
    /\ scored w args st i
    /\ batch st = Some (fst (sample_ (Z.to_nat (times args) - 1)))
    /\ (forall name p, In (WriteFile name (RelaxedPdb p)) evs ->
          p = mkProtein (fst (sample_ (Z.to_nat (times args) - 1)))
                (snd (sample_ i)) (plddt (snd (sample_ i))))
    /\ (relax args = true ->
          In (WriteFile
                (best_save_name args st (snd (sample_ i)) ++ "_best.pdb")
                (RelaxedPdb
                   (mkProtein (fst (sample_ (Z.to_nat (times args) - 1)))
                      (snd (sample_ i)) (plddt (snd (sample_ i))))))
             evs).
Proof.
  intros Htimes.
  destruct (main_settled Htimes)
    as (st & i & Hrun & Hi & Hsc & Hbatch & Hmain).
  exists st, i. eexists.
  split; [ exact Hrun | ].
  split; [ exact Hmain | ].
  split; [ exact Hi | ].
  split; [ exact Hsc | ].
  split; [ exact Hbatch | ].
  split.
  - intros name p H. apply in_app_or in H. destruct H as [H | H].
    + apply in_flat_map in H. destruct H as (n & _ & H).
      exfalso. apply (iteration_log_no_relaxed _ _ _ H).
    + apply final_log_relaxed in H. destruct H as (_ & _ & ->). reflexivity.
  - intros Hr. apply in_or_app. right. apply final_log_relaxed.
    split; [ exact Hr | split; reflexivity ].
Qed.

End DriverOutput.

(** ** Crosslink satisfaction without interface crosslinks *)

Lemma filter_snd_none {A : Type} (row : list A) (mrow : list bool) :
  filter (fun b => b) mrow = [] ->
  filter snd (combine row mrow) = [].
Proof.
  revert mrow. induction row as [ | x row IH]; intros [ | m mrow];
    cbn; try reflexivity.
  destruct m; cbn; [ discriminate | apply IH ].
Qed.

Lemma masked_none {A : Type} (t : list (list A)) (mask : list (list bool)) :
  count_true (List.concat mask) = 0 ->
  masked t mask = [].
Proof.
  unfold count_true, masked. intros H.
  assert (Hnil : filter (fun b => b) (List.concat mask) = []).
  { destruct (filter (fun b => b) (List.concat mask)); [ reflexivity | ].
    cbn in H. lia. }
  clear H. revert mask Hnil.
  induction t as [ | row t IH]; intros [ | mrow mask] Hnil;
    cbn; try reflexivity.
  cbn in Hnil. rewrite filter_app in Hnil.
  apply app_eq_nil in Hnil. destruct Hnil as [Hrow Hrest].
  rewrite (filter_snd_none row mrow Hrow). cbn. apply IH. exact Hrest.
Qed.

Section CrosslinkFacts.

Variable w : World.
Variable args : Args.

(** C4. For a sample without interface crosslinks the satisfaction ratio is
    a NaN; the scoring step raises nothing, prints that ratio, and decides by
    the confidence comparison alone, so that the sample becomes the running
    best whenever that comparison holds. *)
Theorem no_interface_crosslink_gives_nan_and_stays_eligible
    (st : State) (it cur_seed : Z) (b : Batch) (out : Out) :
  count_true (List.concat (interface_xl b)) = 0 ->
  is_nan (satisfaction w args b out) = true
  /\ exists st',
       select w args None st it cur_seed b out = Ok st'
       /\ events st'
          = events st
            ++ [PrintCrosslink it (satisfaction w args b out)
                  (mean_iptm_ptm out)]
       /\ (if confidence_better st out
           then best_out st' = Some out
                /\ best_iptm st' = mean_iptm_ptm out
                /\ best_seed st' = Some cur_seed
           else same_best st st').
Proof.
  intros Hzero. split.
  - unfold satisfaction, satisfied, total_xl.
    rewrite Hzero, (masked_none _ _ Hzero). reflexivity.
  - eexists. split; [ reflexivity | ].
    unfold select_crosslink, confidence_better, log. cbn.
    destruct (best_out st) as [old | ] eqn:Hold; cbn.
    + destruct (best_iptm st <? mean_iptm_ptm out)%float; cbn;
        unfold same_best; cbn; auto.
    + auto.
Qed.

End CrosslinkFacts.

(** ** The order of binary64 numbers is transitive *)

Module FloatOrder.

Ltac split_compare :=
  repeat match goal with
         | H : context [Z.compare ?a ?b] |- _ =>
             destruct (Z.compare_spec a b); try discriminate H
         | H : context [PosDef.Pos.compare_cont Eq ?a ?b] |- _ =>
             change (PosDef.Pos.compare_cont Eq a b) with (Pos.compare a b)
               in H
         | H : context [Pos.compare ?a ?b] |- _ =>
             destruct (Pos.compare_spec a b); try discriminate H
         | |- context [Z.compare ?a ?b] =>
             destruct (Z.compare_spec a b)
         | |- context [PosDef.Pos.compare_cont Eq ?a ?b] =>
             change (PosDef.Pos.compare_cont Eq a b) with (Pos.compare a b)
         | |- context [Pos.compare ?a ?b] =>
             destruct (Pos.compare_spec a b)
         end.

Ltac by_cases x y z :=
  destruct x as [[ | ] | [ | ] | | [ | ] ? ?],
           y as [[ | ] | [ | ] | | [ | ] ? ?],
           z as [[ | ] | [ | ] | | [ | ] ? ?];
  cbn; try discriminate; try congruence;
  intros H1 H2; injection H1 as H1; injection H2 as H2;
  split_compare; subst; try lia; try reflexivity.

Lemma SFcompare_lt_trans (x y z : spec_float) :
  SFcompare x y = Some Lt -> SFcompare y z = Some Lt ->
  SFcompare x z = Some Lt.
Proof. by_cases x y z. Qed.

Lemma SFcompare_eq_lt (x y z : spec_float) :
  SFcompare x y = Some Eq -> SFcompare y z = Some Lt ->
  SFcompare x z = Some Lt.
Proof. by_cases x y z. Qed.

Lemma SFcompare_lt_eq (x y z : spec_float) :
  SFcompare x y = Some Lt -> SFcompare y z = Some Eq ->
  SFcompare x z = Some Lt.
Proof. by_cases x y z. Qed.

Lemma ltb_trans (x y z : float) :
  (x <? y)%float = true -> (y <? z)%float = true -> (x <? z)%float = true.
Proof.
  rewrite !ltb_spec. unfold SFltb.
  destruct (SFcompare (Prim2SF x) (Prim2SF y)) as [[ | | ] | ] eqn:E1;
    try discriminate.
  destruct (SFcompare (Prim2SF y) (Prim2SF z)) as [[ | | ] | ] eqn:E2;
    try discriminate.
  now rewrite (SFcompare_lt_trans _ _ _ E1 E2).
Qed.

Lemma eqb_ltb (x y z : float) :
  (x =? y)%float = true -> (y <? z)%float = true -> (x <? z)%float = true.
Proof.
  rewrite !ltb_spec, eqb_spec. unfold SFltb, SFeqb.
  destruct (SFcompare (Prim2SF x) (Prim2SF y)) as [[ | | ] | ] eqn:E1;
    try discriminate.
  destruct (SFcompare (Prim2SF y) (Prim2SF z)) as [[ | | ] | ] eqn:E2;
    try discriminate.
  now rewrite (SFcompare_eq_lt _ _ _ E1 E2).
Qed.

Lemma ltb_eqb (x y z : float) :
  (x <? y)%float = true -> (z =? y)%float = true -> (x <? z)%float = true.
Proof.
  rewrite !ltb_spec, eqb_spec. unfold SFltb, SFeqb.
  rewrite (FloatFacts.SFcompare_swap (Prim2SF y) (Prim2SF z)).
  destruct (SFcompare (Prim2SF x) (Prim2SF y)) as [[ | | ] | ] eqn:E1;
    try discriminate.
  destruct (SFcompare (Prim2SF y) (Prim2SF z)) as [[ | | ] | ] eqn:E2;
    try discriminate.
  now rewrite (SFcompare_lt_eq _ _ _ E1 E2).
Qed.

End FloatOrder.

(** ** The selected sample, over the whole run *)

Section Champion.

Variable w : World.
Variable args : Args.

Abbreviation conf i := (iptm_ptm (snd (sample w args i))).

(** After any number of iterations without an RDC table, no sample seen so
    far has a confidence above that of the running best, and no earlier
    sample has a confidence equal to it. *)
Lemma best_is_first_maximum (n : nat) :
  (1 <= n)%nat ->
  exists st i,
    after w args None n = Ok st
    /\ (i < n)%nat
    /\ scored w args st i
    /\ (forall j, (j < n)%nat -> (conf i <? conf j)%float = false)
    /\ (forall j, (j < i)%nat -> (conf j =? conf i)%float = false).
Proof.
  induction n as [ | n IH]; intros Hn; [ lia | ].
  destruct n as [ | m].
  - destruct (first_stays w args 1) as (st & Hst & Hsc);
      [ intros; lia | lia | ].
    exists st, 0%nat. split; [ exact Hst | ]. split; [ lia | ].
    split; [ exact Hsc | ]. split.
    + intros j Hj. replace j with 0%nat by lia. apply FloatFacts.ltb_irrefl.
    + intros j Hj. lia.
  - destruct IH as (st & i & Hst & Hi & Hsc & Hbest & Hties); [ lia | ].
    destruct (step_after w args (S m))
      as (st0 & st' & i' & Hst0 & Hst' & _ & Hsc' & Hnew); [ lia | ].
    rewrite Hst in Hst0. injection Hst0 as <-.
    destruct (scored_bound _ _ _ _ Hsc) as [_ Hb].
    destruct (scored_bound _ _ _ _ Hsc') as [_ Hb'].
    rewrite Hb in Hb'. rewrite <- Hb' in Hnew.
    destruct (conf i <? conf (S m))%float eqn:Hwin.
    + exists st', (S m). split; [ exact Hst' | ]. split; [ lia | ].
      split; [ exact Hnew | ]. split.
      * intros j Hj. destruct (Nat.eq_dec j (S m)) as [-> | Hne];
          [ apply FloatFacts.ltb_irrefl | ].
        destruct (conf (S m) <? conf j)%float eqn:Hj'; [ | reflexivity ].
        rewrite <- (Hbest j ltac:(lia)).
        symmetry. eapply FloatOrder.ltb_trans; eassumption.
      * intros j Hj.
        destruct (conf j =? conf (S m))%float eqn:Htie; [ | reflexivity ].
        rewrite <- (Hbest j ltac:(lia)).
        symmetry. eapply FloatOrder.ltb_eqb; eassumption.
    + exists st', i. split; [ exact Hst' | ]. split; [ lia | ].
      split; [ apply (scored_same_best _ _ st); assumption | ]. split.
      * intros j Hj. destruct (Nat.eq_dec j (S m)) as [-> | Hne];
          [ exact Hwin | apply Hbest; lia ].
      * exact Hties.
Qed.

End Champion.

(** ** The seeds of a run *)

Lemma loaded_seeds_log (w : World) (args : Args) (n : nat) :
  loaded_seeds (flat_map (iteration_log w args) (seq 0 n))
  = map (seed_at w args) (seq 0 n).
Proof.
  induction n as [ | n IH]; [ reflexivity | ].
  rewrite flat_map_seq_S, seq_S, map_app. unfold loaded_seeds in *.
  rewrite flat_map_app, IH. f_equal.
  unfold iteration_log, iteration_files.
  destruct (save_raw_output args); reflexivity.
Qed.

Lemma nth_error_map_seq {A : Type} (f : nat -> A) (n i : nat) (x : A) :
  nth_error (map f (seq 0 n)) i = Some x -> x = f i.
Proof.
  intros H.
  assert (L : (i < List.length (map f (seq 0 n)))%nat)
    by (apply nth_error_Some; congruence).
  rewrite length_map, length_seq in L.
  rewrite nth_error_map, nth_error_seq in H.
  apply Nat.ltb_lt in L. rewrite L in H. cbn in H. congruence.
Qed.

(** The iterations a run starts: all of them without an RDC table, the
    first one only with one. *)
Lemma run_seeds (w : World) (args : Args)
    (rdc_df : option (list RDCRecord)) :
  loaded_seeds (run_events w args rdc_df)
  = map (seed_at w args)
      (seq 0 (match rdc_df with
              | None => Z.to_nat (times args)
              | Some _ => Nat.min 1 (Z.to_nat (times args))
              end)).
Proof.
  destruct rdc_df as [df | ].
  - destruct (Z_le_gt_dec 1 (times args)) as [H | H].
    + rewrite (run_events_rdc w args df H).
      replace (Nat.min 1 (Z.to_nat (times args))) with 1%nat by lia.
      reflexivity.
    + destruct (run_empty w args (Some df)) as [_ ->]; [ lia | ].
      replace (Z.to_nat (times args)) with 0%nat by lia. reflexivity.
  - rewrite run_events_crosslink. apply loaded_seeds_log.
Qed.

(** C9. The seed of an iteration is [hash((base_seed, index))] reduced
    modulo 100000, a number from 0 to 99999.  A run hands to the feature
    pipeline exactly these seeds, in order, one for each iteration it
    starts (a run with an RDC table starts the first one only); so two runs
    on the same interpreter hash with the same base seed hand over the same
    seed at every iteration they both start, whatever else differs between
    them. *)
Theorem derived_seed_depends_on_base_seed_and_index_only
    (w w' : World) (args args' : Args)
    (rdc_df rdc_df' : option (list RDCRecord)) :
  py_hash w' = py_hash w ->
  data_random_seed args' = data_random_seed args ->
  (forall base index,
     derived_seed w base index = py_hash w (base, index) mod 100000
     /\ 0 <= derived_seed w base index < 100000)
  /\ loaded_seeds (run_events w args rdc_df)
     = map (fun i => derived_seed w (data_random_seed args) (Z.of_nat i))
         (seq 0 (match rdc_df with
                 | None => Z.to_nat (times args)
                 | Some _ => Nat.min 1 (Z.to_nat (times args))
                 end))
  /\ forall i s s',
       nth_error (loaded_seeds (run_events w args rdc_df)) i = Some s ->
       nth_error (loaded_seeds (run_events w' args' rdc_df')) i = Some s' ->
       s' = s
       /\ s = derived_seed w (data_random_seed args) (Z.of_nat i).
Proof.
  intros Hhash Hbase. split; [ | split ].
  - intros base index. unfold derived_seed.
    split; [ reflexivity | apply Z.mod_pos_bound; lia ].
  - apply run_seeds.
  - intros i s s'. rewrite !run_seeds. intros H H'.
    apply nth_error_map_seq in H, H'. subst s s'.
    unfold seed_at, derived_seed. rewrite Hhash, Hbase. split; reflexivity.
Qed.

(** ** Two runs side by side *)

(** Both runs reach the same iteration with the same winner when their
    outputs agree seed by seed. *)
Lemma crosslink_runs_agree (w w' : World) (args args' : Args) (n : nat) :
  py_hash w' = py_hash w ->
  data_random_seed args' = data_random_seed args ->
  (forall s,
     snd (infer w' (load_feature_for_one_target w' s))
     = snd (infer w (load_feature_for_one_target w s))) ->
  (1 <= n)%nat ->
  exists st st' i,
    after w args None n = Ok st
    /\ after w' args' None n = Ok st'
    /\ scored w args st i
    /\ scored w' args' st' i.
Proof.
  intros Hhash Hbase Hout Hn.
  assert (Hseed : forall i, seed_at w' args' i = seed_at w args i).
  { intros i. unfold seed_at, derived_seed. now rewrite Hhash, Hbase. }
  assert (Hsample : forall i,
            snd (sample w' args' i) = snd (sample w args i)).
  { intros i. unfold sample. rewrite Hseed. apply Hout. }
  induction n as [ | n IH]; [ lia | ].
  destruct n as [ | m].
  - destruct (first_stays w args 1) as (st & Hst & Hsc);
      [ intros; lia | lia | ].
    destruct (first_stays w' args' 1) as (st' & Hst' & Hsc');
      [ intros; lia | lia | ].
    exists st, st', 0%nat. auto.
  - destruct IH as (st & st' & i & Hst & Hst' & Hsc & Hsc'); [ lia | ].
    destruct (step_after w args (S m))
      as (st0 & st1 & j & Hst0 & Hst1 & _ & Hscj & Hnew); [ lia | ].
    destruct (step_after w' args' (S m))
      as (st0' & st1' & j' & Hst0' & Hst1' & _ & Hscj' & Hnew'); [ lia | ].
    rewrite Hst in Hst0. injection Hst0 as <-.
    rewrite Hst' in Hst0'. injection Hst0' as <-.
    destruct (scored_bound _ _ _ _ Hsc) as [_ Hb].
    destruct (scored_bound _ _ _ _ Hscj) as [_ Hbj].
    destruct (scored_bound _ _ _ _ Hsc') as [_ Hb'].
    destruct (scored_bound _ _ _ _ Hscj') as [_ Hbj'].
    rewrite Hb in Hbj. rewrite Hb' in Hbj'.
    rewrite <- Hbj in Hnew. rewrite <- Hbj' in Hnew'.
    rewrite !Hsample in Hnew'.
    destruct (iptm_ptm (snd (sample w args i))
              <? iptm_ptm (snd (sample w args (S m))))%float.
    + exists st1, st1', (S m). auto.
    + exists st1, st1', i.
      split; [ exact Hst1 | ]. split; [ exact Hst1' | ].
      split; eapply scored_same_best; eassumption.
Qed.

(** C1. Without an RDC table the scoring step prints the satisfaction ratio
    and replaces the running best exactly when there is none yet or the
    running confidence is strictly below [out["iptm+ptm"]] of the sample,
    which becomes the running confidence.  So the best of a run is a sample
    of the highest confidence: no sample of the run has a confidence above
    its own.  And two runs whose model outputs agree seed by seed end with
    the same best output, confidence and seed, however their batches,
    distance functions and cutoffs (all that the satisfaction ratio is
    computed from) differ. *)
Theorem crosslink_selection_by_confidence_only
    (w w' : World) (args args' : Args) :
  py_hash w' = py_hash w ->
  data_random_seed args' = data_random_seed args ->
  times args' = times args ->
  (forall s,
     snd (infer w' (load_feature_for_one_target w' s))
     = snd (infer w (load_feature_for_one_target w s))) ->
  (forall st it cur_seed b out,
     exists st',
       select w args None st it cur_seed b out = Ok st'
       /\ events st'
          = events st
            ++ [PrintCrosslink it (satisfaction w args b out) (iptm_ptm out)]
       /\ (if match best_out st with
              | None => true
              | Some _ => (best_iptm st <? iptm_ptm out)%float
              end
           then best_out st' = Some out
                /\ best_iptm st' = iptm_ptm out
                /\ best_seed st' = Some cur_seed
           else same_best st st'))
  /\ (1 <= times args ->
      exists st i,
        run_loop w args None = Ok st
        /\ (i < Z.to_nat (times args))%nat
        /\ best_out st = Some (snd (sample w args i))
        /\ best_iptm st = iptm_ptm (snd (sample w args i))
        /\ forall j, (j < Z.to_nat (times args))%nat ->
             (iptm_ptm (snd (sample w args i))
              <? iptm_ptm (snd (sample w args j)))%float = false)
  /\ exists st st',
       run_loop w args None = Ok st
       /\ run_loop w' args' None = Ok st'
       /\ best_out st' = best_out st
       /\ best_iptm st' = best_iptm st
       /\ best_seed st' = best_seed st.
Proof.
  intros Hhash Hbase Htimes Hout. split; [ | split ].
  - intros st it cur_seed b out. eexists. split; [ reflexivity | ].
    unfold select_crosslink, confidence_better, log, mean_iptm_ptm.
    cbn [best_out best_iptm best_q_score best_seed batch events seed].
    destruct (best_out st) as [old | ] eqn:Hold.
    + destruct (best_iptm st <? iptm_ptm out)%float;
        cbn [best_out best_iptm best_q_score best_seed batch events seed];
        unfold same_best;
        cbn [best_out best_iptm best_q_score best_seed batch events seed];
        auto.
    + cbn [best_out best_iptm best_q_score best_seed batch events seed].
      auto.
  - intros H1. rewrite run_loop_after.
    destruct (best_is_first_maximum w args (Z.to_nat (times args)))
      as (st & i & Hst & Hi & (Ho & _ & Hc) & Hmax & _); [ lia | ].
    exists st, i. auto.
  - rewrite !run_loop_after, Htimes.
    destruct (Z.to_nat (times args)) as [ | m] eqn:Hn.
    + exists (initial), (initial). repeat split.
    + destruct (crosslink_runs_agree w w' args args' (S m) Hhash Hbase Hout)
        as (st & st' & i & Hst & Hst' & Hsc & Hsc'); [ lia | ].
      exists st, st'. split; [ exact Hst | ]. split; [ exact Hst' | ].
      destruct Hsc as (Ho & Hs & Hc). destruct Hsc' as (Ho' & Hs' & Hc').
      rewrite Ho, Ho', Hs, Hs', Hc, Hc'.
      unfold sample, seed_at, derived_seed. rewrite Hhash, Hbase, !Hout.
      auto.
Qed.

(** ** Runs with an RDC table *)

(** The outputs reach the scoring as NumPy arrays, and the first statement
    of [compute_q_factor] calls a method of tensors on the coordinates it is
    handed.  The theorems of this section evaluate the code there. *)


(** C3: the code on a table without a usable row.  In the demo world the
    only row of the table names an atom outside the vocabulary, so no row
    would survive; but no Q-factor is reported, infinite or other: the
    Q-factor of an output raises [AttributeError] whatever the table, and
    so does the run. *)
Theorem unresolvable_table_raises_instead_of_infinite_q :
  kept_rows Demo.atom_order Demo.np_linalg_norm Demo.positions
    [Demo.row_bad_atom] = []
  /\ (forall w df out, q_factor_of w df out = Raise AttributeError)
  /\ main (Demo.world Demo.table_a) (Demo.args_with 1 false)
       (Some [Demo.row_bad_atom]) = Raise AttributeError.
Proof.
  split; [ | split ]; reflexivity.
Qed.

(** C6: the code on rows that are to be skipped.  In the demo world the
    body of the [try] would skip a row with an unknown atom name and a row
    past the last residue; but an iteration raises [AttributeError] whatever
    the rows of the table, and the run ends there with the features of its
    first iteration loaded and nothing printed or written. *)
Theorem rdc_rows_surface_attribute_error :
  rdc_row Demo.atom_order Demo.np_linalg_norm Demo.positions
    Demo.row_bad_atom = None
  /\ rdc_row Demo.atom_order Demo.np_linalg_norm Demo.positions
       Demo.row_past_end = None
  /\ (forall w args df st it,
        iteration w args (Some df) st it = Raise AttributeError)
  /\ main (Demo.world Demo.table_a) (Demo.args_with 1 false)
       (Some [Demo.row_bad_atom; Demo.row_past_end]) = Raise AttributeError
  /\ run_events (Demo.world Demo.table_a) (Demo.args_with 1 false)
       (Some [Demo.row_bad_atom; Demo.row_past_end]) = [LoadFeatures 126].
Proof.
  split; [ reflexivity | ]. split; [ reflexivity | ].
  split; [ apply iteration_rdc_raises | ].
  split; reflexivity.
Qed.

(** C10: the code with an RDC table.  No run with an RDC table ends with a
    sample installed: with at least one iteration it raises
    [AttributeError] when the features of its first iteration are loaded,
    before anything is printed or written; without an iteration it raises
    [TypeError] after the loop. *)
Theorem rdc_run_installs_no_sample
    (w : World) (args : Args) (df : list RDCRecord) :
  main w args (Some df)
  = Raise (if times args <=? 0 then TypeError else AttributeError)
  /\ run_events w args (Some df)
     = (if times args <=? 0 then [] else [LoadFeatures (seed_at w args 0)])
  /\ (forall st, run_loop w args (Some df) = Ok st -> best_out st = None)
  /\ main (Demo.world Demo.table_a) (Demo.args_with 2 false)
       (Some [Demo.row_bad_atom]) = Raise AttributeError.
Proof.
  destruct (times args <=? 0) eqn:Ht.
  - apply Z.leb_le in Ht.
    destruct (run_empty w args (Some df) Ht) as [Hrun Hev].
    split; [ unfold main; rewrite Hrun; reflexivity | ].
    split; [ exact Hev | ].
    split; [ | reflexivity ].
    intros st. rewrite Hrun. now intros [= <-].
  - apply Z.leb_gt in Ht.
    assert (H1 : 1 <= times args) by lia.
    split; [ unfold main; now rewrite (run_loop_rdc_raises w args df H1) | ].
    split; [ apply run_events_rdc; exact H1 | ].
    split; [ | reflexivity ].
    intros st. rewrite (run_loop_rdc_raises w args df H1). discriminate.
Qed.

(** ** The chunk sizer *)

Module ChunkFacts.

Lemma SFmul_nan_r (x : spec_float) : SFmul prec emax x S754_nan = S754_nan.
Proof. destruct x; reflexivity. Qed.

(** Below zero the square root is a NaN, and so is every scaled
    breakpoint: [int] raises the error [math.sqrt] raises. *)
Lemma int_of_scaled_negative_sqrt (x k : float) :
  (x <? 0)%float = true ->
  Py.int (k * (PrimFloat.sqrt x * 0.95))%float = Raise ValueError.
Proof.
  intros H. unfold Py.int.
  rewrite mul_spec, mul_spec, sqrt_spec.
  rewrite ltb_spec in H.
  change (Prim2SF 0) with (S754_zero false) in H.
  destruct (Prim2SF x) as [s | s | | s m e]; try destruct s;
    try discriminate H; cbn [SF64sqrt SFsqrt];
    unfold SF64mul; cbn [SFmul]; rewrite SFmul_nan_r; reflexivity.
Qed.

(** Closed number expressions are evaluated in place. *)
Ltac evaluate t :=
  let r := eval vm_compute in t in change t with r; cbn [bind].

Ltac evaluate_ints :=
  repeat match goal with
         | |- context [Py.int ?x] => evaluate (Py.int x)
         end.

(** Follows the remaining tests of a call that returned, to bound the chunk
    size it returned. *)
Ltac walk H :=
  repeat first
    [ injection H as <- _; lia
    | match type of H with
      | context [if ?c then _ else _] => destruct c
      | context [Py.int ?x] => destruct (Py.int x)
      end;
      cbn [bind] in H; try discriminate H ].

Section WithDevice.

Variable cuda : Cuda.

(** The code computes what the specification's words say. *)
Lemma automatic_chunk_size_refines (seq_len : Z) (device : string)
    (is_bf16 : bool) :
  automatic_chunk_size cuda seq_len device is_bf16
  = chunk_sizer seq_len (get_device_mem cuda device) is_bf16.
Proof.
  unfold automatic_chunk_size, chunk_factor, chunk_sizer, Py.math_sqrt.
  set (x := (get_device_mem cuda device / 40.0
             * (0.55 * Py.float_of_bool is_bf16 + 0.45))%float).
  change (get_device_mem cuda device / 40
          * (0.55 * Py.float_of_bool is_bf16 + 0.45))%float with x.
  destruct (x <? 0)%float eqn:Hneg; cbn [bind].
  - cbn [first_below breakpoints].
    rewrite (int_of_scaled_negative_sqrt x 1024 Hneg). reflexivity.
  - cbn [first_below breakpoints].
    destruct (Py.int (1024 * (PrimFloat.sqrt x * 0.95))%float) as [t1 | ];
      cbn [bind]; [ | reflexivity ].
    destruct (seq_len <? t1); [ reflexivity | ].
    destruct (Py.int (2048 * (PrimFloat.sqrt x * 0.95))%float) as [t2 | ];
      cbn [bind]; [ | reflexivity ].
    destruct (seq_len <? t2); [ reflexivity | ].
    destruct (Py.int (3072 * (PrimFloat.sqrt x * 0.95))%float) as [t3 | ];
      cbn [bind]; [ | reflexivity ].
    destruct (seq_len <? t3); [ reflexivity | ].
    destruct (Py.int (4096 * (PrimFloat.sqrt x * 0.95))%float) as [t4 | ];
      cbn [bind]; [ | reflexivity ].
    destruct (seq_len <? t4); reflexivity.
Qed.

(** Without a device, the budget is 40. *)
Lemma get_device_mem_fallback (device : string) :
  device = "cpu"%string \/ is_available cuda = false ->
  get_device_mem cuda device = 40%float.
Proof.
  unfold get_device_mem. intros [-> | ->]; [ reflexivity | ].
  now rewrite andb_false_r.
Qed.

(** With a budget of 40 the breakpoints are 652, 1305, 1957 and 2610 in full
    precision, and 972, 1945, 2918 and 3891 in low precision. *)
Lemma automatic_chunk_size_at_40 (seq_len : Z) (device : string)
    (is_bf16 : bool) :
  get_device_mem cuda device = 40%float ->
  automatic_chunk_size cuda seq_len device is_bf16
  = Ok (if is_bf16
        then if seq_len <? 972 then (256, None)
             else if seq_len <? 1945 then (128, None)
             else if seq_len <? 2918 then (64, None)
             else if seq_len <? 3891 then (32, Some 512)
             else (4, Some 256)
        else if seq_len <? 652 then (256, None)
             else if seq_len <? 1305 then (128, None)
             else if seq_len <? 1957 then (64, None)
             else if seq_len <? 2610 then (32, Some 512)
             else (4, Some 256)).
Proof.
  intros H. unfold automatic_chunk_size. rewrite H.
  destruct is_bf16.
  - evaluate (chunk_factor 40 true).
    evaluate_ints.
    destruct (seq_len <? 972); [ reflexivity | ].
    destruct (seq_len <? 1945); [ reflexivity | ].
    destruct (seq_len <? 2918); [ reflexivity | ].
    destruct (seq_len <? 3891); reflexivity.
  - evaluate (chunk_factor 40 false).
    evaluate_ints.
    destruct (seq_len <? 652); [ reflexivity | ].
    destruct (seq_len <? 1305); [ reflexivity | ].
    destruct (seq_len <? 1957); [ reflexivity | ].
    destruct (seq_len <? 2610); reflexivity.
Qed.

(** A longer sequence never gets a larger chunk size, and the call returns
    for the shorter sequence when it does for the longer one. *)
Lemma automatic_chunk_size_monotone (seq_len seq_len' : Z) (device : string)
    (is_bf16 : bool) (c' : Z) (b' : option Z) :
  seq_len <= seq_len' ->
  automatic_chunk_size cuda seq_len' device is_bf16 = Ok (c', b') ->
  exists c b,
    automatic_chunk_size cuda seq_len device is_bf16 = Ok (c, b) /\ c' <= c.
Proof.
  intros Hle. unfold automatic_chunk_size.
  destruct (chunk_factor (get_device_mem cuda device) is_bf16) as [f | ];
    cbn [bind]; [ | discriminate ].
  destruct (Py.int (1024 * f)%float) as [t1 | ]; cbn [bind]; [ | discriminate ].
  destruct (seq_len <? t1) eqn:H1.
  { intros H. do 2 eexists. split; [ reflexivity | ]. walk H. }
  destruct (seq_len' <? t1) eqn:H1'; [ lia | ].
  destruct (Py.int (2048 * f)%float) as [t2 | ]; cbn [bind]; [ | discriminate ].
  destruct (seq_len <? t2) eqn:H2.
  { intros H. do 2 eexists. split; [ reflexivity | ]. walk H. }
  destruct (seq_len' <? t2) eqn:H2'; [ lia | ].
  destruct (Py.int (3072 * f)%float) as [t3 | ]; cbn [bind]; [ | discriminate ].
  destruct (seq_len <? t3) eqn:H3.
  { intros H. do 2 eexists. split; [ reflexivity | ]. walk H. }
  destruct (seq_len' <? t3) eqn:H3'; [ lia | ].
  destruct (Py.int (4096 * f)%float) as [t4 | ]; cbn [bind]; [ | discriminate ].
  destruct (seq_len <? t4) eqn:H4.
  { intros H. do 2 eexists. split; [ reflexivity | ]. walk H. }
  destruct (seq_len' <? t4) eqn:H4'; [ lia | ].
  intros H. injection H as <- <-. do 2 eexists. split; [ reflexivity | lia ].
Qed.

End WithDevice.

End ChunkFacts.

(** ** Finite nonnegative binary64 numbers stay finite

    Bounds on the operations of the chunk sizer, from their definitions in
    [SpecFloat]: no product, quotient or square root it takes leaves the
    finite numbers. *)

Module FloatBounds.

Lemma digits2_size (p : positive) : digits2_pos p = Pos.size p.
Proof. induction p; cbn; congruence. Qed.

Lemma digits_nonneg (m : Z) : 0 <= Zdigits2 m.
Proof. destruct m; cbn; lia. Qed.

(** A number lies below two to the number of its digits. *)
Lemma digits_upper (m : Z) : 0 <= m -> m < 2 ^ Zdigits2 m.
Proof.
  destruct m as [ | p | p]; cbn [Zdigits2]; intros H; [ reflexivity | | lia ].
  rewrite digits2_size.
  pose proof (Pos.size_gt p) as Hgt.
  apply Pos2Z.pos_lt_pos in Hgt. rewrite Pos2Z.inj_pow in Hgt. exact Hgt.
Qed.

Lemma digits_lower (p : positive) : 2 ^ (Zpos (digits2_pos p) - 1) <= Zpos p.
Proof.
  rewrite digits2_size.
  pose proof (Pos.size_le p) as Hle.
  apply Pos2Z.pos_le_pos in Hle. rewrite Pos2Z.inj_pow in Hle.
  change (Zpos p~0) with (2 * Zpos p) in Hle.
  replace (Zpos (Pos.size p)) with (Zpos (Pos.size p) - 1 + 1) in Hle by lia.
  rewrite Z.pow_add_r in Hle by lia. lia.
Qed.

(** A number below a power of two has at most that many digits. *)
Lemma digits_le (m k : Z) : 0 <= m -> 0 <= k -> m < 2 ^ k -> Zdigits2 m <= k.
Proof.
  intros Hm Hk Hlt.
  destruct m as [ | p | p]; cbn [Zdigits2]; [ lia | | lia ].
  pose proof (digits_lower p) as Hlow.
  destruct (Z_le_gt_dec (Zpos (digits2_pos p)) k) as [ | Hgt]; [ assumption | ].
  exfalso.
  assert (2 ^ k <= 2 ^ (Zpos (digits2_pos p) - 1))
    by (apply Z.pow_le_mono_r; lia).
  lia.
Qed.

Lemma shr_1_m (r : shr_record) :
  0 <= shr_m r -> shr_m (shr_1 r) = shr_m r / 2.
Proof.
  destruct r as [m b s]. cbn [shr_m shr_1]. intros Hm.
  destruct m as [ | [p | p | ] | p]; cbn [shr_m]; try lia; try reflexivity.
  - rewrite Pos2Z.inj_xI. apply (Z.div_unique _ _ _ 1); lia.
  - rewrite Pos2Z.inj_xO. apply (Z.div_unique _ _ _ 0); lia.
Qed.

Lemma iter_shr_m (p : positive) (r : shr_record) :
  0 <= shr_m r ->
  shr_m (iter_pos shr_1 p r) = shr_m r / 2 ^ Zpos p.
Proof.
  revert r. induction p as [p IH | p IH | ]; intros r Hm; cbn [iter_pos].
  - assert (H1 : 0 <= shr_m (shr_1 r))
      by (rewrite shr_1_m by assumption; apply Z.div_pos; lia).
    assert (H2 : 0 <= shr_m (iter_pos shr_1 p (shr_1 r)))
      by (rewrite IH by assumption; apply Z.div_pos; lia).
    rewrite IH, IH, shr_1_m by assumption.
    rewrite !Z.div_div by lia. f_equal.
    rewrite Pos2Z.inj_xI.
    replace (2 * Zpos p + 1) with (Zpos p + Zpos p + 1) by lia.
    rewrite !Z.pow_add_r by lia. lia.
  - assert (H2 : 0 <= shr_m (iter_pos shr_1 p r))
      by (rewrite IH by assumption; apply Z.div_pos; lia).
    rewrite IH, IH by assumption.
    rewrite !Z.div_div by lia. f_equal.
    rewrite <- Z.pow_add_r by lia. f_equal. lia.
  - rewrite shr_1_m by assumption. reflexivity.
Qed.

Lemma shr_record_of_loc_m (m : Z) (l : location) :
  shr_m (shr_record_of_loc m l) = m.
Proof. destruct l as [ | [ | | ]]; reflexivity. Qed.

(** The first step of rounding keeps the bound. *)
Lemma shr_fexp_below (m e : Z) (l : location) (E : Z) :
  0 <= m ->
  Zdigits2 m + e <= E ->
  -1074 <= E ->
  0 <= shr_m (fst (shr_fexp prec emax m e l))
  /\ Zdigits2 (shr_m (fst (shr_fexp prec emax m e l)))
     + snd (shr_fexp prec emax m e l) <= E
  /\ snd (shr_fexp prec emax m e l) <= Z.max e (fexp64 E).
Proof.
  intros Hm Hd HE. unfold shr_fexp, shr.
  pose proof (digits_upper m Hm) as Hup.
  pose proof (digits_nonneg m) as Hd0.
  set (d := Zdigits2 m) in *.
  assert (Hf : fexp64 (d + e) <= fexp64 E)
    by (unfold fexp, emin, prec, emax; lia).
  assert (Hf' : fexp64 E <= E)
    by (unfold fexp, emin, prec, emax; lia).
  destruct (fexp64 (d + e) - e) as [ | n | n] eqn:Hn; cbn [fst snd];
    rewrite ?shr_record_of_loc_m; try (repeat split; lia).
  rewrite iter_shr_m by (rewrite shr_record_of_loc_m; exact Hm).
  rewrite shr_record_of_loc_m.
  assert (Hq : 0 <= m / 2 ^ Zpos n) by (apply Z.div_pos; lia).
  split; [ exact Hq | ]. split; [ | lia ].
  destruct (Z_le_gt_dec (Zpos n) d) as [Hle | Hgt].
  - assert (Zdigits2 (m / 2 ^ Zpos n) <= d - Zpos n); [ | lia ].
    apply digits_le; [ exact Hq | lia | ].
    apply Z.div_lt_upper_bound; [ lia | ].
    rewrite <- Z.pow_add_r by lia.
    replace (Zpos n + (d - Zpos n)) with d by lia. exact Hup.
  - rewrite Z.div_small; [ cbn [Zdigits2]; lia | ].
    split; [ exact Hm | ].
    apply Z.lt_le_trans with (1 := Hup).
    apply Z.pow_le_mono_r; lia.
Qed.

Lemma round_nearest_even_bounds (m : Z) (l : location) :
  m <= round_nearest_even m l <= m + 1.
Proof.
  destruct l as [ | [ | | ]]; cbn; try lia.
  destruct (Z.even m); lia.
Qed.

(** Rounding a nonnegative mantissa whose value lies below [2 ^ E] gives a
    finite nonnegative number below [2 ^ (E + 1)]. *)
Lemma binary_round_aux_below (m e : Z) (l : location) (E : Z) :
  0 <= m ->
  Zdigits2 m + e <= E ->
  e <= 971 ->
  -1074 <= E <= 1023 ->
  below (E + 1) (binary_round_aux prec emax false m e l).
Proof.
  intros Hm Hd He HE. unfold binary_round_aux.
  destruct (shr_fexp_below m e l E Hm Hd) as (H1 & H2 & H3); [ lia | ].
  destruct (shr_fexp prec emax m e l) as [r1 e1]. cbn [fst snd] in *.
  set (m2 := round_nearest_even (shr_m r1) (loc_of_shr_record r1)).
  pose proof (round_nearest_even_bounds (shr_m r1) (loc_of_shr_record r1))
    as Hr. fold m2 in Hr.
  assert (Hm2 : 0 <= m2) by lia.
  assert (Hd2 : Zdigits2 m2 + e1 <= E + 1).
  { pose proof (digits_upper (shr_m r1) H1) as Hup.
    pose proof (digits_nonneg (shr_m r1)) as Hd0.
    assert (Zdigits2 m2 <= Zdigits2 (shr_m r1) + 1); [ | lia ].
    apply digits_le; [ exact Hm2 | lia | ].
    rewrite Z.pow_add_r by lia. lia. }
  destruct (shr_fexp_below m2 e1 loc_Exact (E + 1) Hm2 Hd2) as (G1 & G2 & G3);
    [ lia | ].
  destruct (shr_fexp prec emax m2 e1 loc_Exact) as [r3 e3].
  cbn [fst snd] in *.
  assert (He3 : e3 <= 971)
    by (revert H3 G3; unfold fexp, emin, prec, emax; lia).
  destruct (shr_m r3) as [ | p | p]; cbn [below]; [ exact I | | lia ].
  replace (e3 <=? emax - prec) with true
    by (symmetry; apply Z.leb_le; unfold prec, emax; lia).
  cbn [below]. exact G2.
Qed.

Lemma below_weaken (E E' : Z) (x : spec_float) :
  E <= E' -> below E x -> below E' x.
Proof. destruct x as [[ | ] | | | [ | ] m e]; cbn; lia. Qed.

(** What validity says of a finite number. *)
Lemma valid_finite (s : bool) (m : positive) (e : Z) :
  valid_binary (S754_finite s m e) = true ->
  e = fexp64 (Zpos (digits2_pos m) + e) /\ e <= 971.
Proof.
  cbn [SpecFloat.valid_binary]. unfold bounded, canonical_mantissa.
  intros H. apply andb_prop in H. destruct H as [Hc Hb].
  apply Z.eqb_eq in Hc. apply Z.leb_le in Hb.
  unfold prec, emax in *. split; [ symmetry; exact Hc | lia ].
Qed.

Lemma digits_mul (a b : positive) :
  Zdigits2 (Zpos (a * b))
  <= Zpos (digits2_pos a) + Zpos (digits2_pos b).
Proof.
  apply digits_le; [ lia | lia | ].
  pose proof (digits_upper (Zpos a) ltac:(lia)) as Ha.
  pose proof (digits_upper (Zpos b) ltac:(lia)) as Hb.
  cbn [Zdigits2] in Ha, Hb.
  rewrite Z.pow_add_r, Pos2Z.inj_mul by lia. nia.
Qed.

(** A product of nonnegative numbers below [2 ^ Ex] and [2 ^ Ey]. *)
Lemma mul_below (x y : float) (Ex Ey : Z) :
  below Ex (Prim2SF x) ->
  below Ey (Prim2SF y) ->
  -1074 <= Ex + Ey <= 1023 ->
  below (Ex + Ey + 1) (Prim2SF (x * y)).
Proof.
  intros Hx Hy HE. rewrite mul_spec. unfold SF64mul.
  pose proof (Prim2SF_valid x) as Vx. pose proof (Prim2SF_valid y) as Vy.
  destruct (Prim2SF x) as [[ | ] | | | [ | ] mx ex]; try contradiction;
    destruct (Prim2SF y) as [[ | ] | | | [ | ] my ey]; try contradiction;
    cbn [SFmul xorb below] in *; try exact I.
  destruct (valid_finite _ _ _ Vx) as [Cx Bx].
  destruct (valid_finite _ _ _ Vy) as [Cy By].
  pose proof (digits_mul mx my) as Hd.
  apply binary_round_aux_below; try lia.
  revert Cx Cy. unfold fexp, emin, prec, emax. lia.
Qed.

(** A quotient of such a number by a positive one. *)
Lemma div_below (x y : float) (Ex : Z) (my : positive) (ey : Z) :
  below Ex (Prim2SF x) ->
  Prim2SF y = S754_finite false my ey ->
  -1074 <= Ex - (Zpos (digits2_pos my) + ey) + 1 <= 1023 ->
  below (Ex - (Zpos (digits2_pos my) + ey) + 2) (Prim2SF (x / y)).
Proof.
  intros Hx Hy HE. rewrite div_spec, Hy. unfold SF64div.
  pose proof (Prim2SF_valid x) as Vx.
  destruct (Prim2SF x) as [[ | ] | | | [ | ] mx ex]; try contradiction;
    cbn [SFdiv xorb below] in *; try exact I.
  destruct (valid_finite _ _ _ Vx) as [Cx Bx].
  unfold SFdiv_core_binary. cbn [Zdigits2].
  set (d1 := Zpos (digits2_pos mx)) in *.
  set (d2 := Zpos (digits2_pos my)) in *.
  set (e' := Z.min (fexp64 (d1 + ex - (d2 + ey))) (ex - ey)).
  set (s := ex - ey - e').
  assert (Hs : 0 <= s) by (unfold s, e'; lia).
  set (m' := match s with
             | 0 => Zpos mx
             | Zpos _ => Z.shiftl (Zpos mx) s
             | Zneg _ => 0
             end).
  assert (Hm' : m' = Zpos mx * 2 ^ s).
  { unfold m'. destruct s as [ | p | p] eqn:Es; [ lia | | lia ].
    apply Z.shiftl_mul_pow2. lia. }
  pose proof (Z.div_eucl_eq m' (Zpos my) ltac:(lia)) as Heq.
  pose proof (Z.mod_pos_bound m' (Zpos my) ltac:(lia)) as Hmod.
  unfold Z.modulo in Hmod.
  assert (Hq : fst (Z.div_eucl m' (Zpos my)) = m' / Zpos my)
    by (unfold Z.div; destruct (Z.div_eucl m' (Zpos my)); reflexivity).
  destruct (Z.div_eucl m' (Zpos my)) as [q r]. cbn [fst] in Hq. subst q.
  pose proof (digits_upper (Zpos mx) ltac:(lia)) as Hup.
  pose proof (digits_lower my) as Hlow.
  cbn [Zdigits2] in Hup. fold d1 in Hup. fold d2 in Hlow.
  assert (Hd1 : 0 < d1) by (unfold d1; lia).
  assert (Hd2 : 0 < d2) by (unfold d2; lia).
  set (K := Z.max 0 (d1 + s - d2 + 1)).
  assert (Hquot : 0 <= m' / Zpos my) by (apply Z.div_pos; nia).
  assert (Hdq : Zdigits2 (m' / Zpos my) <= K).
  { apply digits_le; [ exact Hquot | unfold K; lia | ].
    apply Z.div_lt_upper_bound; [ lia | ].
    assert (Hpow : 2 ^ (d1 + s) <= 2 ^ (d2 - 1) * 2 ^ K).
    { rewrite <- Z.pow_add_r by (unfold K; lia).
      apply Z.pow_le_mono_r; unfold K; lia. }
    assert (m' < 2 ^ (d1 + s)).
    { rewrite Hm', Z.pow_add_r by lia.
      apply Z.mul_lt_mono_pos_r; [ apply Z.pow_pos_nonneg; lia | exact Hup ]. }
    assert (0 < 2 ^ K) by (apply Z.pow_pos_nonneg; unfold K; lia).
    nia. }
  assert (He' : e' <= fexp64 (d1 + ex - (d2 + ey))) by (unfold e'; lia).
  replace (Ex - (d2 + ey) + 2) with (Ex - (d2 + ey) + 1 + 1) by lia.
  apply binary_round_aux_below; try assumption; try lia.
  - revert He'. unfold K, s, fexp, emin, prec, emax. lia.
  - revert He'. unfold fexp, emin, prec, emax. lia.
Qed.

(** The square root of such a number. *)
Lemma sqrt_below (x : float) (E : Z) :
  below E (Prim2SF x) ->
  -1074 <= E <= 1024 ->
  below ((E + 1) / 2 + 1) (Prim2SF (PrimFloat.sqrt x)).
Proof.
  intros Hx HE. rewrite sqrt_spec. unfold SF64sqrt.
  pose proof (Prim2SF_valid x) as Vx.
  destruct (Prim2SF x) as [[ | ] | | | [ | ] mx ex]; try contradiction;
    cbn [SFsqrt below] in *; try exact I.
  destruct (valid_finite _ _ _ Vx) as [Cx Bx].
  unfold SFsqrt_core_binary. cbn [Zdigits2].
  set (d := Zpos (digits2_pos mx)) in *.
  rewrite !Z.div2_div.
  set (e' := Z.min (fexp64 ((d + ex + 1) / 2)) (ex / 2)).
  set (s := ex - 2 * e').
  assert (Hs : 0 <= s).
  { unfold s, e'. pose proof (Z.mul_div_le ex 2 ltac:(lia)). lia. }
  set (m' := match s with
             | 0 => Zpos mx
             | Zpos _ => Z.shiftl (Zpos mx) s
             | Zneg _ => 0
             end).
  assert (Hm' : m' = Zpos mx * 2 ^ s).
  { unfold m'. destruct s as [ | p | p] eqn:Es; [ lia | | lia ].
    apply Z.shiftl_mul_pow2. lia. }
  pose proof (Z.sqrtrem_sqrt m') as Hq.
  destruct (Z.sqrtrem m') as [q r]. cbn [fst] in Hq. subst q.
  pose proof (digits_upper (Zpos mx) ltac:(lia)) as Hup.
  cbn [Zdigits2] in Hup. fold d in Hup.
  assert (Hd : 0 < d) by (unfold d; lia).
  set (K := (d + s + 1) / 2).
  assert (HK : d + s <= 2 * K /\ 0 <= K).
  { unfold K. pose proof (Z.div_mod (d + s + 1) 2 ltac:(lia)).
    pose proof (Z.mod_pos_bound (d + s + 1) 2 ltac:(lia)). lia. }
  assert (Hsq : 0 <= Z.sqrt m') by apply Z.sqrt_nonneg.
  assert (Hdq : Zdigits2 (Z.sqrt m') <= K).
  { apply digits_le; [ exact Hsq | lia | ].
    apply Z.sqrt_lt_square; [ nia | apply Z.pow_nonneg; lia | ].
    rewrite <- Z.pow_add_r by lia.
    apply Z.lt_le_trans with (2 ^ (d + s)).
    - rewrite Hm', Z.pow_add_r by lia.
      apply Z.mul_lt_mono_pos_r; [ apply Z.pow_pos_nonneg; lia | exact Hup ].
    - apply Z.pow_le_mono_r; lia. }
  assert (HKe : K + e' = (d + ex + 1) / 2).
  { unfold K, s.
    replace (d + (ex - 2 * e') + 1) with (d + ex + 1 + (- e') * 2) by lia.
    rewrite Z.div_add by lia. lia. }
  assert (Hmono : (d + ex + 1) / 2 <= (E + 1) / 2)
    by (apply Z.div_le_mono; lia).
  assert (Hlo : -537 <= (E + 1) / 2 <= 512).
  { split.
    - apply Z.div_le_lower_bound; lia.
    - assert ((E + 1) / 2 < 513) by (apply Z.div_lt_upper_bound; lia). lia. }
  assert (He' : e' <= ex / 2) by (unfold e'; lia).
  assert (Hex : ex / 2 <= 971) by (apply Z.div_le_upper_bound; lia).
  apply binary_round_aux_below; try assumption; lia.
Qed.

(** [int] returns on such a number, and [math.sqrt] takes it. *)
Lemma int_below (x : float) (E : Z) :
  below E (Prim2SF x) -> exists n, Py.int x = Ok n.
Proof.
  unfold Py.int.
  destruct (Prim2SF x) as [[ | ] | | | [ | ] m e]; cbn; try contradiction;
    eauto.
Qed.

Lemma not_negative_below (x : float) (E : Z) :
  below E (Prim2SF x) -> (x <? 0)%float = false.
Proof.
  rewrite ltb_spec. change (Prim2SF 0) with (S754_zero false).
  destruct (Prim2SF x) as [[ | ] | | | [ | ] m e]; cbn; try contradiction;
    reflexivity.
Qed.

Lemma digits_iter_xO (p k : positive) :
  digits2_pos (Pos.iter xO p k) = (digits2_pos p + k)%positive.
Proof.
  apply (Pos.iter_ind _ xO p
           (fun k q => digits2_pos q = (digits2_pos p + k)%positive)).
  - cbn. now rewrite Pos.add_1_r.
  - intros k' q IH. cbn. rewrite IH. now rewrite Pos.add_succ_r.
Qed.

(** The float of a byte count that fits 63 bits. *)
Lemma float_of_Z_below (z : Z) :
  0 <= z < 2 ^ 63 -> below 64 (Prim2SF (Py.float_of_Z z)).
Proof.
  intros Hz.
  assert (Hto : Uint63.to_Z (Uint63.of_Z z) = z).
  { rewrite Uint63.of_Z_spec. apply Z.mod_small. exact Hz. }
  assert (Hsf : Prim2SF (of_uint63 (Uint63.of_Z z))
                = binary_normalize prec emax z 0 false)
    by (rewrite of_uint63_spec, Hto; reflexivity).
  unfold Py.float_of_Z. rewrite <- Hsf, SF2Prim_Prim2SF, Hsf.
  destruct z as [ | p | p]; cbn [binary_normalize]; [ exact I | | lia ].
  assert (Hd : Zpos (digits2_pos p) <= 63)
    by (apply (digits_le (Zpos p)); lia).
  unfold binary_round, shl_align.
  destruct (fexp64 (Zpos (digits2_pos p) + 0) - 0) as [ | k | k] eqn:Hk;
    try (apply (binary_round_aux_below _ _ _ 63); cbn [Zdigits2]; lia).
  apply (binary_round_aux_below _ _ _ 63); cbn [Zdigits2];
    rewrite ?digits_iter_xO; try lia;
    revert Hk; unfold fexp, emin, prec, emax; lia.
Qed.

End FloatBounds.


(** ** The chunk sizer returns *)

Module ChunkTotal.

Import FloatBounds.

(** A closed number is bounded by evaluation. *)
Ltac constant_below :=
  match goal with
  | |- below _ (Prim2SF _) => vm_compute; discriminate
  end.

Lemma div_by_1024_below (x : float) (E : Z) :
  below E (Prim2SF x) ->
  -1064 <= E <= 1033 ->
  below (E - 9) (Prim2SF (x / 1024)).
Proof.
  intros Hx HE.
  pose proof (div_below x 1024 E 4503599627370496 (-42) Hx eq_refl) as H.
  cbn in H. apply (below_weaken (E - 11 + 2)); [ lia | ].
  apply H. lia.
Qed.

Lemma div_by_40_below (x : float) (E : Z) :
  below E (Prim2SF x) ->
  -1069 <= E <= 1028 ->
  below (E - 4) (Prim2SF (x / 40)).
Proof.
  intros Hx HE.
  pose proof (div_below x 40 E 5629499534213120 (-47) Hx eq_refl) as H.
  cbn in H. apply (below_weaken (E - 6 + 2)); [ lia | ].
  apply H. lia.
Qed.

(** Every positive finite number is one of those bounded here. *)
Lemma positive_finite_below (x : float) :
  (0 <? x)%float = true ->
  (x <? infinity)%float = true ->
  below 1024 (Prim2SF x).
Proof.
  rewrite !ltb_spec.
  change (Prim2SF 0) with (S754_zero false).
  change (Prim2SF infinity) with (S754_infinity false).
  pose proof (Prim2SF_valid x) as V.
  destruct (Prim2SF x) as [[ | ] | [ | ] | | [ | ] m e];
    cbn [below SFltb SFcompare]; try discriminate; intros _ _.
  destruct (valid_finite _ _ _ V) as [C B].
  revert C. unfold fexp, emin, prec, emax. lia.
Qed.

(** The memory budget is a finite nonnegative number. *)
Lemma get_device_mem_below (cuda : Cuda) (device : string) :
  0 <= total_memory cuda < 2 ^ 63 ->
  below 1024 (Prim2SF (get_device_mem cuda device)).
Proof.
  intros H. unfold get_device_mem.
  destruct (negb (device =? "cpu")%string && is_available cuda);
    [ | constant_below ].
  apply (below_weaken (64 - 9 - 9 - 9)); [ lia | ].
  apply div_by_1024_below; [ | lia ].
  apply div_by_1024_below; [ | lia ].
  apply div_by_1024_below; [ | lia ].
  apply float_of_Z_below. exact H.
Qed.

(** On such a budget the scaling factor is finite, and [math.sqrt] is
    given nothing below zero. *)
Lemma factor_below (mem : float) (is_bf16 : bool) :
  below 1024 (Prim2SF mem) ->
  below 1022
    (Prim2SF (mem / 40 * (0.55 * Py.float_of_bool is_bf16 + 0.45)))
  /\ below 513
       (Prim2SF
          (PrimFloat.sqrt
             (mem / 40 * (0.55 * Py.float_of_bool is_bf16 + 0.45))
           * 0.95)).
Proof.
  intros Hmem.
  set (c := (0.55 * Py.float_of_bool is_bf16 + 0.45)%float).
  assert (Hc : below 1 (Prim2SF c))
    by (unfold c; destruct is_bf16; constant_below).
  assert (Hx : below 1022 (Prim2SF (mem / 40 * c))).
  { apply (below_weaken (1024 - 4 + 1 + 1)); [ lia | ].
    apply mul_below; [ | exact Hc | lia ].
    apply div_by_40_below; [ exact Hmem | lia ]. }
  split; [ exact Hx | ].
  apply (below_weaken ((1022 + 1) / 2 + 1 + 0 + 1)); [ reflexivity | ].
  apply mul_below; [ | constant_below | cbn; lia ].
  apply sqrt_below; [ exact Hx | lia ].
Qed.

Lemma int_of_scaled_factor (k f : float) :
  below 13 (Prim2SF k) ->
  below 513 (Prim2SF f) ->
  exists t, Py.int (k * f) = Ok t.
Proof.
  intros Hk Hf. apply (int_below _ (13 + 513 + 1)).
  apply mul_below; [ exact Hk | exact Hf | lia ].
Qed.

(** The chunk sizer returns on every budget that is finite and not
    negative. *)
Lemma chunk_sizer_returns_on (seq_len : Z) (mem : float) (is_bf16 : bool) :
  below 1024 (Prim2SF mem) ->
  exists c b, chunk_sizer seq_len mem is_bf16 = Ok (c, b).
Proof.
  intros Hmem. unfold chunk_sizer.
  destruct (factor_below mem is_bf16 Hmem) as [_ Hf].
  set (f := (PrimFloat.sqrt _ * 0.95)%float) in *.
  cbn [first_below breakpoints].
  destruct (int_of_scaled_factor 1024 f) as (t1 & ->);
    [ constant_below | exact Hf | ].
  destruct (int_of_scaled_factor 2048 f) as (t2 & ->);
    [ constant_below | exact Hf | ].
  destruct (int_of_scaled_factor 3072 f) as (t3 & ->);
    [ constant_below | exact Hf | ].
  destruct (int_of_scaled_factor 4096 f) as (t4 & ->);
    [ constant_below | exact Hf | ].
  cbn [bind].
  destruct (seq_len <? t1); [ eauto | ].
  destruct (seq_len <? t2); [ eauto | ].
  destruct (seq_len <? t3); [ eauto | ].
  destruct (seq_len <? t4); eauto.
Qed.

End ChunkTotal.

(** C5. On a device whose memory is a byte count of up to 63 bits, the call
    returns, and returns what the specification's words give: the pair of the
    first of the breakpoints 1024, 2048, 3072 and 4096 which, scaled by
    [factor = sqrt(budget / 40 * (0.55 * low_precision + 0.45)) * 0.95] and
    truncated to an integer, lies above the sequence length, and (4, 256)
    beyond them; the specification's sizer returns as well on every positive
    finite budget.  With a budget of 40 a sequence of 500 gets (256, None)
    and one of 5000 gets (4, 256) in full precision.  A longer sequence never
    gets a larger chunk size.  Without a device the budget is 40. *)
Theorem automatic_chunk_size_scaled_breakpoints (cuda : Cuda) (seq_len : Z)
    (device : string) (is_bf16 : bool) :
  0 <= total_memory cuda < 2 ^ 63 ->
  automatic_chunk_size cuda seq_len device is_bf16
  = chunk_sizer seq_len (get_device_mem cuda device) is_bf16
  /\ (exists c b,
        automatic_chunk_size cuda seq_len device is_bf16 = Ok (c, b))
  /\ (forall mem,
        (0 <? mem)%float = true ->
        (mem <? infinity)%float = true ->
        exists c b, chunk_sizer seq_len mem is_bf16 = Ok (c, b))
  /\ (get_device_mem cuda device = 40%float ->
      automatic_chunk_size cuda 500 device false = Ok (256, None)
      /\ automatic_chunk_size cuda 5000 device false = Ok (4, Some 256))
  /\ (forall seq_len' c c' b b',
        seq_len <= seq_len' ->
        automatic_chunk_size cuda seq_len device is_bf16 = Ok (c, b) ->
        automatic_chunk_size cuda seq_len' device is_bf16 = Ok (c', b') ->
        c' <= c)
  /\ (device = "cpu"%string \/ is_available cuda = false ->
      get_device_mem cuda device = 40%float).
Proof.
  intros Hmem.
  split; [ apply ChunkFacts.automatic_chunk_size_refines | ].
  split.
  { rewrite ChunkFacts.automatic_chunk_size_refines.
    apply ChunkTotal.chunk_sizer_returns_on.
    apply ChunkTotal.get_device_mem_below. exact Hmem. }
  split.
  { intros mem Hpos Hfin. apply ChunkTotal.chunk_sizer_returns_on.
    apply ChunkTotal.positive_finite_below; assumption. }
  split.
  { intros H40.
    rewrite !(ChunkFacts.automatic_chunk_size_at_40 cuda _ device false H40).
    split; reflexivity. }
  split; [ | apply ChunkFacts.get_device_mem_fallback ].
  intros seq_len' c c' b b' Hle Hs Hs'.
  destruct (ChunkFacts.automatic_chunk_size_monotone cuda _ _ _ _ _ _ Hle Hs')
    as (c0 & b0 & Hs0 & Hc).
  rewrite Hs in Hs0. injection Hs0 as <- <-. exact Hc.
Qed.

(** * The theorems at work in the demo world *)

Lemma crosslink_selection_by_confidence_only_witness :
  (exists st i,
     run_loop (Demo.world Demo.table_a) (Demo.args_with 3 false) None = Ok st
     /\ (i < 3)%nat
     /\ best_out st
        = Some (snd (sample (Demo.world Demo.table_a)
                       (Demo.args_with 3 false) i))
     /\ forall j, (j < 3)%nat ->
          (iptm_ptm (snd (sample (Demo.world Demo.table_a)
                            (Demo.args_with 3 false) i))
           <? iptm_ptm (snd (sample (Demo.world Demo.table_a)
                               (Demo.args_with 3 false) j)))%float = false)
  /\ exists st st',
       run_loop (Demo.world Demo.table_a) (Demo.args_with 3 false) None
       = Ok st
       /\ run_loop (Demo.world Demo.table_b) (Demo.args_cutoff 3 10) None
          = Ok st'
       /\ best_out st' = best_out st
       /\ best_iptm st' = best_iptm st
       /\ best_seed st' = best_seed st.
Proof.
  assert (Hout : forall s,
            snd (infer (Demo.world Demo.table_b)
                   (load_feature_for_one_target (Demo.world Demo.table_b) s))
            = snd (infer (Demo.world Demo.table_a)
                     (load_feature_for_one_target
                        (Demo.world Demo.table_a) s))).
  { intros s. cbn. unfold Demo.infer_table.
    destruct (Z.to_nat (s - 126)) as [ | [ | [ | [ | n]]]]; reflexivity. }
  destruct (crosslink_selection_by_confidence_only
              (Demo.world Demo.table_a) (Demo.world Demo.table_b)
              (Demo.args_with 3 false) (Demo.args_cutoff 3 10)
              eq_refl eq_refl eq_refl Hout) as (_ & Hmax & Hsame).
  split; [ | exact Hsame ].
  destruct Hmax as (st & i & Hrun & Hi & Ho & _ & Hj); [ cbn; lia | ].
  exists st, i. auto.
Defined.

Lemma no_interface_crosslink_gives_nan_and_stays_eligible_witness :
  count_true (List.concat (interface_xl Demo.batch_one_chain)) = 0
  /\ is_nan
       (satisfaction (Demo.world Demo.table_a) (Demo.args_with 3 false)
          Demo.batch_one_chain (Demo.out_with 0.9)) = true.
Proof.
  split; [ reflexivity | ].
  apply (no_interface_crosslink_gives_nan_and_stays_eligible
           (Demo.world Demo.table_a) (Demo.args_with 3 false)
           (initial) 1 127 Demo.batch_one_chain (Demo.out_with 0.9)).
  reflexivity.
Defined.

Lemma automatic_chunk_size_scaled_breakpoints_witness :
  0 <= total_memory Demo.cuda_40g < 2 ^ 63
  /\ automatic_chunk_size Demo.cuda_40g 500 "cuda:0" false
     = chunk_sizer 500 (get_device_mem Demo.cuda_40g "cuda:0") false
  /\ exists c b,
       automatic_chunk_size Demo.cuda_40g 500 "cuda:0" false = Ok (c, b).
Proof.
  assert (H : 0 <= total_memory Demo.cuda_40g < 2 ^ 63)
    by (cbn; lia).
  split; [ exact H | ].
  destruct (automatic_chunk_size_scaled_breakpoints
              Demo.cuda_40g 500 "cuda:0" false H) as (Href & Hret & _).
  split; [ exact Href | exact Hret ].
Defined.

Lemma samples_written_best_written_when_relaxed_witness :
  1 <= times (Demo.args_with 3 true)
  /\ exists st out evs,
       run_loop (Demo.world Demo.table_a) (Demo.args_with 3 true) None = Ok st
       /\ best_out st = Some out
       /\ main (Demo.world Demo.table_a) (Demo.args_with 3 true) None
          = Ok evs
       /\ forall n, (n < 3)%nat ->
            In (iteration_structure (Demo.world Demo.table_a)
                  (Demo.args_with 3 true) n) evs.
Proof.
  assert (H : 1 <= times (Demo.args_with 3 true)) by (cbn; lia).
  split; [ exact H | ].
  destruct (samples_written_best_written_when_relaxed
              (Demo.world Demo.table_a) (Demo.args_with 3 true) H)
    as (st & out & evs & Hrun & Hbest & Hmain & Hiter & _).
  exists st, out, evs. auto.
Defined.

Lemma best_structure_from_winning_output_and_last_batch_witness :
  1 <= times (Demo.args_with 2 true)
  /\ exists st i evs,
       run_loop (Demo.world Demo.table_first_wins) (Demo.args_with 2 true)
         None = Ok st
       /\ main (Demo.world Demo.table_first_wins) (Demo.args_with 2 true)
            None = Ok evs
       /\ (i < 2)%nat
       /\ scored (Demo.world Demo.table_first_wins) (Demo.args_with 2 true)
            st i
       /\ batch st
          = Some (fst (sample (Demo.world Demo.table_first_wins)
                         (Demo.args_with 2 true) 1)).
Proof.
  assert (H : 1 <= times (Demo.args_with 2 true)) by (cbn; lia).
  split; [ exact H | ].
  destruct (best_structure_from_winning_output_and_last_batch
              (Demo.world Demo.table_first_wins) (Demo.args_with 2 true) H)
    as (st & i & evs & Hrun & Hmain & Hi & Hsc & Hbatch & _).
  exists st, i, evs. auto.
Defined.

Lemma derived_seed_depends_on_base_seed_and_index_only_witness :
  loaded_seeds
    (run_events (Demo.world Demo.table_a) (Demo.args_with 3 false) None)
  = map (fun i => derived_seed (Demo.world Demo.table_a) 42 (Z.of_nat i))
      (seq 0 3)
  /\ forall i s s',
       nth_error
         (loaded_seeds
            (run_events (Demo.world Demo.table_a) (Demo.args_with 3 false)
               None)) i = Some s ->
       nth_error
         (loaded_seeds
            (run_events (Demo.world Demo.table_first_wins)
               (Demo.args_with 2 true) (Some [Demo.row_ok]))) i = Some s' ->
       s' = s
       /\ s = derived_seed (Demo.world Demo.table_a) 42 (Z.of_nat i).
Proof.
  exact (proj2 (derived_seed_depends_on_base_seed_and_index_only
                  (Demo.world Demo.table_a)
                  (Demo.world Demo.table_first_wins)
                  (Demo.args_with 3 false) (Demo.args_with 2 true)
                  None (Some [Demo.row_ok]) eq_refl eq_refl)).
Defined.

(** * Where the specification says more than the code does *)

(** C7 as stated fails: a run without relaxation writes no structure file
    but those of its iterations. *)
Lemma no_best_structure_without_relaxation :
  ~ (forall evs,
       main (Demo.world Demo.table_a) (Demo.args_with 1 false) None = Ok evs ->
       exists name c,
         In (WriteFile name c) evs
         /\ (exists p, c = ToPdb p \/ c = RelaxedPdb p)
         /\ name <> "AlphaLink2_126_0.500.pdb"%string).
Proof.
  intros H.
  destruct (H _ ltac:(vm_compute; reflexivity))
    as (name & c & Hin & (p & Hp) & Hname).
  repeat destruct Hin as [Hin | Hin]; try discriminate Hin;
    try contradiction.
  - injection Hin as <- _. apply Hname. reflexivity.
  - injection Hin as _ <-. destruct Hp; discriminate.
  - injection Hin as _ <-. destruct Hp; discriminate.
Qed.

(** C8 as stated fails: when the first of two samples wins, the best
    structure is built on the batch of the second. *)
Lemma best_structure_uses_batch_of_last_iteration :
  ~ (forall st evs name p i,
       run_loop (Demo.world Demo.table_first_wins) (Demo.args_with 2 true)
         None = Ok st ->
       main (Demo.world Demo.table_first_wins) (Demo.args_with 2 true) None
       = Ok evs ->
       In (WriteFile name (RelaxedPdb p)) evs ->
       best_seed st
       = Some (seed_at (Demo.world Demo.table_first_wins)
                 (Demo.args_with 2 true) i) ->
       features p
       = fst (sample (Demo.world Demo.table_first_wins)
                (Demo.args_with 2 true) i)).
Proof.
  intros H.
  assert (Hbad :
            features
              (mkProtein Demo.batch_one_chain (Demo.out_with 0.9)
                 (plddt (Demo.out_with 0.9)))
            = Demo.batch_xl).
  { refine (H _ _ _ _ 0%nat _ _ _ _);
      [ vm_compute; reflexivity | vm_compute; reflexivity | | reflexivity ].
    do 6 right. left. reflexivity. }
  discriminate Hbad.
Qed.

(** * Further properties of the driver *)

(** ** The selection, without an RDC table *)

Section Selection.

Variable w : World.
Variable args : Args.

Abbreviation conf i := (iptm_ptm (snd (sample w args i))).

(** X1. After any number of iterations of a run without an RDC table the
    running best is a sample no sample seen so far beats (none has a
    confidence above its own), and the first one among those of its
    confidence: no earlier sample ties with it. *)
Theorem selected_sample_is_unbeaten (n : nat) :
  (1 <= n)%nat ->
  exists st i,
    after w args None n = Ok st
    /\ (i < n)%nat
    /\ best_out st = Some (snd (sample w args i))
    /\ best_seed st = Some (seed_at w args i)
    /\ best_iptm st = conf i
    /\ (forall j, (j < n)%nat -> (conf i <? conf j)%float = false)
    /\ (forall j, (j < i)%nat -> (conf j =? conf i)%float = false).
Proof.
  intros Hn.
  destruct (best_is_first_maximum w args n Hn)
    as (st & i & Hst & Hi & (Ho & Hs & Hc) & Hmax & Hties).
  exists st, i.
  split; [ exact Hst | ]. split; [ exact Hi | ].
  split; [ exact Ho | ]. split; [ exact Hs | ]. split; [ exact Hc | ].
  split; [ exact Hmax | exact Hties ].
Qed.

(** X20. At every iteration after the first of a run without an RDC table
    the running best is replaced exactly when the confidence of the new
    sample is strictly above the running confidence; so the running
    confidence never goes down, and a sample that ties with the running
    best leaves it in place. *)
Theorem best_replaced_only_by_strictly_higher_confidence (k : nat) :
  (1 <= k)%nat ->
  exists st st',
    after w args None k = Ok st
    /\ after w args None (S k) = Ok st'
    /\ (if (best_iptm st <? conf k)%float
        then best_out st' = Some (snd (sample w args k))
             /\ best_seed st' = Some (seed_at w args k)
             /\ best_iptm st' = conf k
        else same_best st st')
    /\ (best_iptm st' <? best_iptm st)%float = false
    /\ ((conf k =? best_iptm st)%float = true -> same_best st st').
Proof.
  intros Hk.
  destruct (step_after w args k Hk)
    as (st & st' & i & Hst & Hst' & _ & Hsc & Hnew).
  destruct (scored_bound _ _ _ _ Hsc) as [_ Hscore].
  exists st, st'. rewrite Hscore.
  split; [ exact Hst | ]. split; [ exact Hst' | ].
  destruct (conf i <? conf k)%float eqn:Hb.
  - split; [ exact Hnew | ].
    destruct (scored_bound _ _ _ _ Hnew) as [_ Hscore'].
    rewrite Hscore'. split.
    + apply FloatFacts.ltb_asym. exact Hb.
    + intros Htie.
      destruct (FloatFacts.eqb_not_ltb _ _ Htie) as [_ H2].
      rewrite H2 in Hb. discriminate.
  - split; [ exact Hnew | ].
    assert (Hi : best_iptm st' = best_iptm st) by apply Hnew.
    rewrite Hi, Hscore. split.
    + apply FloatFacts.ltb_irrefl.
    + intros _. exact Hnew.
Qed.

End Selection.

(** ** Runs that end in an exception, and confidences that are no numbers *)

Section RunEdges.

Variable w : World.
Variable args : Args.

Abbreviation conf i := (iptm_ptm (snd (sample w args i))).

(** X2. A run without iterations raises [TypeError] after the loop, with or
    without an RDC table: no sample was installed and [out["plddt"]] reads
    [None].  A run of at least one iteration without an RDC table returns. *)
Theorem empty_run_raises_type_error rdc_df :
  (times args <= 0 -> main w args rdc_df = Raise TypeError)
  /\ (1 <= times args -> exists evs, main w args None = Ok evs).
Proof.
  split.
  - intros H. unfold main, run_loop, range.
    replace (Z.to_nat (times args)) with 0%nat by lia. reflexivity.
  - intros H.
    destruct (main_settled w args H) as (st & i & _ & _ & _ & _ & Hm).
    eexists. exact Hm.
Qed.

(** X3. In a run without an RDC table the first sample is installed
    whatever its confidence; a sample whose confidence is a NaN never
    replaces a running best; and when the first sample's confidence is a
    NaN, that sample stays the best of the run. *)
Theorem nan_score_never_wins_a_comparison :
  (exists st, after w args None 1 = Ok st /\ scored w args st 0)
  /\ (forall k, (1 <= k)%nat ->
        is_nan (conf k) = true ->
        exists st st',
          after w args None k = Ok st
          /\ after w args None (S k) = Ok st'
          /\ same_best st st')
  /\ (is_nan (conf 0) = true ->
      forall n, (1 <= n)%nat ->
        exists st, after w args None n = Ok st /\ scored w args st 0).
Proof.
  split; [ | split ].
  - apply first_stays; [ intros; lia | lia ].
  - intros k Hk Hnan.
    destruct (step_after w args k Hk)
      as (st & st' & i & Hst & Hst' & _ & _ & Hnew).
    exists st, st'. split; [ exact Hst | ]. split; [ exact Hst' | ].
    destruct (FloatFacts.nan_not_ltb _ (conf i) Hnan) as [H1 H2].
    rewrite H2 in Hnew. exact Hnew.
  - intros Hnan n Hn. apply first_stays; [ | exact Hn ].
    intros i _.
    destruct (FloatFacts.nan_not_ltb _ (conf i) Hnan) as [H1 H2].
    exact H1.
Qed.

End RunEdges.

(** ** Everything a run without an RDC table prints and writes *)

Section RunTrace.

Variable w : World.
Variable args : Args.

Abbreviation sample_ := (sample w args).
Abbreviation seed_ := (seed_at w args).

(** X5. The trace of a run of at least one iteration without an RDC table
    is, in this order, the log of each iteration (the seed handed to the
    feature pipeline, the printed line with the satisfaction ratio and the
    confidence, the structure file and, on request, the archive of the raw
    output) and then the files written after the loop for the winning
    output and the batch of the last iteration. *)
Theorem run_trace_in_order :
  1 <= times args ->
  exists st i,
    run_loop w args None = Ok st
    /\ (i < Z.to_nat (times args))%nat
    /\ best_out st = Some (snd (sample_ i))
    /\ main w args None
       = Ok (flat_map
               (fun n =>
                  LoadFeatures (seed_ n)
                  :: PrintCrosslink (Z.of_nat n)
                       (satisfaction w args (fst (sample_ n))
                          (snd (sample_ n)))
                       (iptm_ptm (snd (sample_ n)))
                  :: iteration_files args (seed_ n) (fst (sample_ n))
                       (snd (sample_ n)))
               (seq 0 (Z.to_nat (times args)))
             ++ final_log w args st
                  (fst (sample_ (Z.to_nat (times args) - 1)))
                  (snd (sample_ i))).
Proof.
  intros H.
  destruct (main_settled w args H) as (st & i & Hr & Hi & Hs & _ & Hm).
  exists st, i. destruct Hs as (Ho & _).
  split; [ exact Hr | ]. split; [ exact Hi | ]. split; [ exact Ho | ].
  exact Hm.
Qed.

Lemma iteration_log_pickled (n : nat) (name : string) (o : Out) :
  In (WriteFile name (Pickled o)) (iteration_log w args n)
  <-> save_raw_output args = true
      /\ name = (iteration_save_name (seed_ n) (snd (sample_ n))
                 ++ "_outputs.pkl.gz")%string
      /\ o = snd (sample_ n).
Proof.
  unfold iteration_log, iteration_files.
  destruct (save_raw_output args); cbn [In app]; split;
    intros H; repeat destruct H as [H | H];
    try discriminate; try contradiction;
    try (injection H as <- <-; auto);
    try (destruct H as (H1 & -> & ->); auto; discriminate).
Qed.

Lemma final_log_not_pickled (st : State) (b : Batch) (out : Out)
    (name : string) (o : Out) :
  ~ In (WriteFile name (Pickled o)) (final_log w args st b out).
Proof.
  unfold final_log.
  destruct (relax args), (is_multimer w); cbn; intuition discriminate.
Qed.

(** X6. In a run of at least one iteration without an RDC table the raw
    output of an iteration is archived exactly when [--save_raw_output] is
    given, under the name of the iteration's structure file followed by
    [_outputs.pkl.gz]; nothing else is ever archived. *)
Theorem raw_output_archived_exactly_on_request :
  1 <= times args ->
  exists evs,
    main w args None = Ok evs
    /\ forall name o,
         In (WriteFile name (Pickled o)) evs
         <-> save_raw_output args = true
             /\ exists n,
                  (n < Z.to_nat (times args))%nat
                  /\ name = (iteration_save_name (seed_ n) (snd (sample_ n))
                             ++ "_outputs.pkl.gz")%string
                  /\ o = snd (sample_ n).
Proof.
  intros H.
  destruct (main_settled w args H) as (st & i & _ & _ & _ & _ & Hm).
  eexists. split; [ exact Hm | ].
  intros name o. split.
  - intros Hin. apply in_app_or in Hin. destruct Hin as [Hin | Hin].
    + apply in_flat_map in Hin. destruct Hin as (n & Hn & Hin).
      apply iteration_log_pickled in Hin. destruct Hin as (Hs & Hname & Ho).
      split; [ exact Hs | ]. exists n. apply in_seq in Hn.
      split; [ lia | auto ].
    + exfalso. apply (final_log_not_pickled _ _ _ _ _ Hin).
  - intros (Hs & n & Hn & Hname & Ho).
    apply in_or_app. left. apply in_flat_map. exists n.
    split; [ apply in_seq; lia | ].
    apply iteration_log_pickled. auto.
Qed.

Lemma iteration_log_no_json (n : nat) (name : string)
    (d : list (string * string)) :
  ~ In (WriteFile name (JsonDump d)) (iteration_log w args n).
Proof.
  unfold iteration_log, iteration_files.
  destruct (save_raw_output args); cbn [In app]; intuition discriminate.
Qed.

(** X7. A run of at least one iteration without an RDC table writes the
    pLDDT summary always and the pTM summary for a multimer model only; each
    holds the one entry of the best sample, under the same key, and no other
    JSON file is written. *)
Theorem ptm_summary_for_multimers_only :
  1 <= times args ->
  exists st out evs,
    run_loop w args None = Ok st
    /\ best_out st = Some out
    /\ main w args None = Ok evs
    /\ forall name d,
         In (WriteFile name (JsonDump d)) evs
         <-> (name = (score_name w args ++ "_plddt.json")%string
              /\ d = [(best_save_name args st out,
                       str_float w (np_mean w (plddt out)))])
             \/ (is_multimer w = true
                 /\ name = (score_name w args ++ "_ptm.json")%string
                 /\ d = [(best_save_name args st out,
                          str_float w (mean_iptm_ptm out))]).
Proof.
  intros H.
  destruct (main_settled w args H)
    as (st & i & Hr & _ & (Ho & _) & _ & Hm).
  exists st, (snd (sample_ i)). eexists.
  split; [ exact Hr | ]. split; [ exact Ho | ]. split; [ exact Hm | ].
  intros name d. split.
  - intros Hin. apply in_app_or in Hin. destruct Hin as [Hin | Hin].
    + apply in_flat_map in Hin. destruct Hin as (n & _ & Hin).
      exfalso. apply (iteration_log_no_json _ _ _ Hin).
    + unfold final_log in Hin.
      destruct (relax args), (is_multimer w); cbn in Hin;
        repeat destruct Hin as [Hin | Hin];
        try discriminate; try contradiction;
        injection Hin as <- <-; auto.
  - intros Hd. apply in_or_app. right. unfold final_log.
    destruct Hd as [(-> & ->) | (Hmulti & -> & ->)].
    + apply in_or_app. right. left. reflexivity.
    + rewrite Hmulti. apply in_or_app. right. right. left. reflexivity.
Qed.

(** X8. In a run of at least one iteration without an RDC table and with
    relaxation, the structure of the winning iteration carries the pLDDT
    times 100 (a product of float32 numbers) as B-factors; the best
    structure written after the loop carries the pLDDT of the same output as
    it is. *)
Theorem best_structure_b_factors_not_scaled :
  1 <= times args ->
  relax args = true ->
  exists i evs name name' p p',
    main w args None = Ok evs
    /\ (i < Z.to_nat (times args))%nat
    /\ In (WriteFile name (ToPdb p)) evs
    /\ WriteFile name (ToPdb p) = iteration_structure w args i
    /\ In (WriteFile name' (RelaxedPdb p')) evs
    /\ prediction p' = prediction p
    /\ b_factors p' = plddt (prediction p)
    /\ b_factors p = map (fun x => F32.round (x * 100)) (b_factors p').
Proof.
  intros H Hrelax.
  destruct (main_settled w args H)
    as (st & i & _ & Hi & _ & _ & Hm).
  exists i. eexists.
  exists (iteration_save_name (seed_ i) (snd (sample_ i))),
         (best_save_name args st (snd (sample_ i)) ++ "_best.pdb")%string,
         (mkProtein (fst (sample_ i)) (snd (sample_ i))
            (times_100 (plddt (snd (sample_ i))))),
         (mkProtein (fst (sample_ (Z.to_nat (times args) - 1)))
            (snd (sample_ i)) (plddt (snd (sample_ i)))).
  split; [ exact Hm | ]. split; [ exact Hi | ].
  split.
  { apply in_or_app. left. apply in_flat_map. exists i.
    split; [ apply in_seq; lia | ].
    apply (iteration_log_structure w args i). }
  split; [ reflexivity | ].
  split.
  { apply in_or_app. right. apply final_log_relaxed.
    split; [ exact Hrelax | split; reflexivity ]. }
  repeat split.
Qed.

Lemma count_true_all_false (l : list bool) :
  (forall x, In x l -> x = false) -> count_true l = 0.
Proof.
  unfold count_true. intros H.
  induction l as [ | x l IH]; [ reflexivity | ].
  cbn. rewrite (H x) by (left; reflexivity).
  apply IH. intros y Hy. apply H. right. exact Hy.
Qed.

(** X9. When all residues of a batch sit on one chain, no pair is an interface
    pair and the satisfaction ratio is a NaN, whatever is crosslinked. *)
Theorem single_chain_satisfaction_is_nan (b : Batch) (out : Out) :
  (forall a a', In a (asym_id b) -> In a' (asym_id b) -> a = a') ->
  count_true (List.concat (interface_xl b)) = 0
  /\ is_nan (satisfaction w args b out) = true.
Proof.
  intros Hone.
  assert (Hzero : count_true (List.concat (interface_xl b)) = 0).
  { apply count_true_all_false. intros x Hx.
    apply in_concat in Hx. destruct Hx as (mrow & Hmrow & Hx).
    unfold interface_xl in Hmrow. apply in_map_iff in Hmrow.
    destruct Hmrow as ([row a] & <- & Hra).
    apply in_map_iff in Hx. destruct Hx as ([v a'] & <- & Hva).
    apply in_combine_r in Hra, Hva.
    rewrite (Hone a a' Hra Hva), Z.eqb_refl. apply andb_false_r. }
  split; [ exact Hzero | ].
  unfold satisfaction, satisfied, total_xl.
  rewrite Hzero, (masked_none _ _ Hzero). reflexivity.
Qed.

Lemma masked_length {A : Type} (t : list (list A)) (mask : list (list bool)) :
  Z.of_nat (List.length (masked t mask)) <= count_true (List.concat mask).
Proof.
  unfold masked, count_true.
  apply Nat2Z.inj_le.
  revert mask. induction t as [ | row t IH]; intros [ | mrow mask]; cbn;
    try lia.
  rewrite filter_app, !length_app.
  specialize (IH mask).
  assert (Hrow : (List.length (map fst (filter snd (combine row mrow)))
                  <= List.length (filter (fun b => b) mrow))%nat).
  { clear. rewrite length_map. revert mrow.
    induction row as [ | x row IHr]; intros [ | m mrow]; cbn; try lia.
    specialize (IHr mrow). destruct m; cbn; lia. }
  lia.
Qed.

Lemma count_true_map {A : Type} (f : A -> bool) (l : list A) :
  count_true (map f l) <= Z.of_nat (List.length l).
Proof.
  unfold count_true. apply Nat2Z.inj_le.
  induction l as [ | x l IH]; cbn; [ lia | ].
  destruct (f x); cbn; lia.
Qed.

(** X10. The satisfied interface crosslinks are never more than the
    interface crosslinks, whatever the distances and the cutoff, and whatever
    the test the distances are put to. *)
Theorem satisfied_pairs_at_most_all_pairs (b : Batch) (out : Out)
    (test : float -> bool) :
  count_true (map test (masked (ca_distances w out) (interface_xl b)))
  <= count_true (List.concat (interface_xl b)).
Proof.
  eapply Z.le_trans; [ apply count_true_map | apply masked_length ].
Qed.

End RunTrace.

(** ** The rows of an RDC table *)

Section RowsKept.

Variable atom_order : string -> option nat.
Variable np_linalg_norm : vec3 -> float.

Abbreviation row_of := (rdc_row atom_order np_linalg_norm).




Abbreviation kept := (kept_rows atom_order np_linalg_norm).
Abbreviation rows := (rdc_rows atom_order np_linalg_norm).




End RowsKept.

(** ** Parameter keys and the fields of an output *)

Module KeysFacts.

Import Keys.

Lemma split_not_nil (sep : ascii) (s : string) : split sep s <> [].
Proof.
  destruct s as [ | c s]; cbn; [ discriminate | ].
  destruct (Ascii.eqb c sep); [ discriminate | ].
  destruct (split sep s); discriminate.
Qed.

Lemma split_without (sep : ascii) (s : string) :
  has_char sep s = false -> split sep s = [s].
Proof.
  induction s as [ | c s IH]; cbn; [ reflexivity | ].
  intros H. apply orb_false_elim in H as [Hc Hs].
  rewrite Hc, (IH Hs). reflexivity.
Qed.

Lemma split_at_first (sep : ascii) (p r : string) :
  has_char sep p = false ->
  split sep (p ++ String sep r) = p :: split sep r.
Proof.
  induction p as [ | c p IH]; cbn.
  - intros _. now rewrite Ascii.eqb_refl.
  - intros H. apply orb_false_elim in H as [Hc Hp].
    rewrite Hc, (IH Hp). reflexivity.
Qed.

Lemma concat_cons (sep x : string) (l : list string) :
  l <> [] ->
  String.concat sep (x :: l) = (x ++ sep ++ String.concat sep l)%string.
Proof.
  destruct l; [ contradiction | reflexivity ].
Qed.

Lemma join_split (sep : ascii) (s : string) :
  join (String sep EmptyString) (split sep s) = s.
Proof.
  unfold join. induction s as [ | c s IH]; [ reflexivity | ].
  cbn [split]. pose proof (split_not_nil sep s) as Hne.
  destruct (Ascii.eqb c sep) eqn:Hc.
  - apply Ascii.eqb_eq in Hc as ->.
    rewrite (concat_cons _ _ _ Hne), IH. reflexivity.
  - destruct (split sep s) as [ | first others]; [ contradiction | ].
    destruct others as [ | second others].
    + cbn in *. now rewrite IH.
    + rewrite concat_cons by discriminate.
      rewrite concat_cons in IH by discriminate.
      rewrite <- IH. reflexivity.
Qed.

(** X13. The key rewrite drops everything up to the first dot and keeps all that
    follows it, further dots included; a key without a dot becomes the empty
    key. *)
Theorem strip_first_drops_up_to_first_dot :
  (forall p r : string,
      has_char "." p = false -> strip_first (p ++ "." ++ r) = r)
  /\ (forall k : string, has_char "." k = false -> strip_first k = EmptyString).
Proof.
  split.
  - intros p r Hp. unfold strip_first.
    change (p ++ "." ++ r)%string with (p ++ String "." r)%string.
    rewrite (split_at_first _ _ _ Hp). cbn [tl]. apply join_split.
  - intros k Hk. unfold strip_first. now rewrite (split_without _ _ Hk).
Qed.

Lemma strip_first_after (p r : string) :
  has_char "." p = false -> strip_first (p ++ "." ++ r) = r.
Proof.
  intros Hp. unfold strip_first.
  change (p ++ "." ++ r)%string with (p ++ String "." r)%string.
  rewrite (split_at_first _ _ _ Hp). cbn [tl]. apply join_split.
Qed.

Section Dictionaries.

Context {V : Type}.

Lemma dict_get_set (k k' : string) (v : V) (d : dict V) :
  dict_get k (dict_set k' v d)
  = if String.eqb k' k then Some v else dict_get k d.
Proof.
  induction d as [ | [k0 v0] d IH]; cbn.
  - destruct (String.eqb k' k); reflexivity.
  - destruct (String.eqb k0 k') eqn:H0; cbn.
    + apply String.eqb_eq in H0 as ->.
      destruct (String.eqb k' k); reflexivity.
    + rewrite IH. destruct (String.eqb k0 k) eqn:H1; [ | reflexivity ].
      apply String.eqb_eq in H1 as ->.
      rewrite String.eqb_sym, H0. reflexivity.
Qed.

Lemma dict_get_fold (f : string -> string) (k : string) (d acc : dict V) :
  dict_get k
    (fold_left (fun acc kv => dict_set (f (fst kv)) (snd kv) acc) d acc)
  = match last_sent f k d with
    | Some v => Some v
    | None => dict_get k acc
    end.
Proof.
  revert acc. induction d as [ | [k0 v0] d IH]; intros acc; cbn;
    [ reflexivity | ].
  rewrite IH. destruct (last_sent f k d); [ reflexivity | ].
  rewrite dict_get_set. cbn.
  destruct (String.eqb (f k0) k); reflexivity.
Qed.

Lemma dict_get_absent (k : string) (d : dict V) :
  ~ In k (map fst d) -> dict_get k d = None.
Proof.
  induction d as [ | [k0 v0] d IH]; cbn; [ reflexivity | ].
  intros H. destruct (String.eqb k0 k) eqn:H0.
  - apply String.eqb_eq in H0. tauto.
  - apply IH. tauto.
Qed.

(** X14. When the rewrite sends several keys of a dictionary to the same key,
    the rewritten dictionary holds the value of the last of them; a key no
    key is sent to is absent. *)
Theorem rewritten_key_holds_last_value (f : string -> string)
    (d : dict V) (k : string) :
  dict_get k (rekey f d) = last_sent f k d
  /\ (dict_get k (rekey f d) = None <-> ~ In k (map f (map fst d))).
Proof.
  assert (Hget : dict_get k (rekey f d) = last_sent f k d).
  { unfold rekey. rewrite dict_get_fold.
    destruct (last_sent f k d); reflexivity. }
  split; [ exact Hget | ].
  rewrite Hget. clear Hget.
  induction d as [ | [k0 v0] d IH]; cbn; [ tauto | ].
  destruct (last_sent f k d) as [v | ].
  - split; [ discriminate | ].
    intros H. exfalso. apply H. right.
    destruct (in_dec string_dec k (map f (map fst d))) as [Hin | Hout];
      [ exact Hin | ].
    apply IH in Hout. discriminate.
  - destruct (String.eqb (f k0) k) eqn:H0.
    + apply String.eqb_eq in H0. split; [ discriminate | tauto ].
    + apply String.eqb_neq in H0. split; [ | reflexivity ].
      intros _ [H | H]; [ tauto | ]. now apply IH.
Qed.

(** X15. Parameters stored under one common first component are found, after
    the rewrite, under what follows that component: nothing is lost and
    nothing is confused. *)
Theorem load_params_lookup (p : string) (state_dict : dict V) :
  has_char "." p = false ->
  NoDup (map fst state_dict) ->
  (forall k, In k (map fst state_dict) ->
             exists r, k = (p ++ "." ++ r)%string) ->
  forall r,
    dict_get r (load_params state_dict)
    = dict_get (p ++ "." ++ r)%string state_dict.
Proof.
  intros Hp Hdup Hkeys r. unfold load_params, rekey.
  rewrite dict_get_fold. cbn [dict_get].
  induction state_dict as [ | [k0 v0] d IH]; [ reflexivity | ].
  cbn [map fst] in Hdup, Hkeys. apply NoDup_cons_iff in Hdup as [Hnew Hdup].
  specialize (IH Hdup (fun k H => Hkeys k (or_intror H))).
  destruct (Hkeys k0 (or_introl eq_refl)) as [r0 ->].
  cbn [last_sent dict_get]. rewrite (strip_first_after _ _ Hp).
  destruct (String.eqb (p ++ "." ++ r0) (p ++ "." ++ r)) eqn:H0.
  - apply String.eqb_eq in H0.
    assert (r0 = r) as ->.
    { rewrite <- (strip_first_after p r0 Hp), <- (strip_first_after p r Hp).
      now rewrite H0. }
    rewrite String.eqb_refl.
    destruct (last_sent strip_first r d) as [v | ] eqn:Hlast;
      [ | reflexivity ].
    rewrite (dict_get_absent _ _ Hnew) in IH. discriminate.
  - assert (String.eqb r0 r = false) as ->.
    { apply String.eqb_neq. intros ->.
      rewrite String.eqb_refl in H0. discriminate. }
    destruct (last_sent strip_first r d); [ exact IH | exact IH ].
Qed.

Lemma dict_get_only (keep : string -> bool) (k : string) (d : dict V) :
  dict_get k (only keep d) = if keep k then dict_get k d else None.
Proof.
  unfold only. induction d as [ | [k0 v0] d IH]; cbn.
  - destruct (keep k); reflexivity.
  - destruct (keep k0) eqn:Hk0; cbn; rewrite IH.
    + destruct (String.eqb k0 k) eqn:H0; [ | reflexivity ].
      apply String.eqb_eq in H0 as <-. now rewrite Hk0.
    + destruct (String.eqb k0 k) eqn:H0; [ | reflexivity ].
      apply String.eqb_eq in H0 as <-. now rewrite Hk0.
Qed.

End Dictionaries.

Lemma prefix_app (p s : string) :
  String.prefix p s = true <-> exists rest, s = (p ++ rest)%string.
Proof.
  revert s. induction p as [ | c p IH]; intros s.
  - split; [ intros _; now exists s | intros _; now destruct s ].
  - destruct s as [ | c' s]; cbn.
    + split; [ discriminate | intros [rest H]; discriminate ].
    + destruct (ascii_dec c c') as [<- | Hne].
      * rewrite IH. split; intros [rest H]; exists rest.
        -- now rewrite H.
        -- now injection H.
      * split; [ discriminate | intros [rest H] ].
        injection H as H _. congruence.
Qed.

(** X16. Without [--save_raw_output] a field of the raw output is kept, with its
    value, exactly when its name starts with [final_] or is one of [plddt],
    [ptm], [iptm] and [iptm+ptm]; with it every field is kept. *)
Theorem filter_output_keeps_final_and_scores {V : Type}
    (save_raw_output : bool) (raw_out : dict V) (k : string) :
  dict_get k (filter_output save_raw_output raw_out)
  = (if save_raw_output || kept_key k then dict_get k raw_out else None)
  /\ (kept_key k = true
      <-> (exists rest, k = ("final_" ++ rest)%string)
          \/ k = "plddt"%string \/ k = "ptm"%string
          \/ k = "iptm"%string \/ k = "iptm+ptm"%string).
Proof.
  split.
  - unfold filter_output. destruct save_raw_output; [ reflexivity | ].
    apply dict_get_only.
  - unfold kept_key. rewrite orb_true_iff, prefix_app, existsb_exists.
    unfold score_keys. split.
    + intros [H | (x & Hin & Hx)]; [ now left | right ].
      apply String.eqb_eq in Hx as <-. cbn in Hin.
      intuition congruence.
    + intros [H | H]; [ now left | right ].
      exists k. rewrite String.eqb_refl.
      split; [ cbn; intuition congruence | reflexivity ].
Qed.

End KeysFacts.

(** ** The names of the files *)

Module NameFacts.

Import Keys.

Lemma str_int_inj (a b : Z) : Fmt.str_int a = Fmt.str_int b -> a = b.
Proof.
  unfold Fmt.str_int. intros H.
  assert (Hnil : forall z, Z.to_int z <> Decimal.Pos Decimal.Nil
                           /\ Z.to_int z <> Decimal.Neg Decimal.Nil).
  { intros [ | p | p]; cbn; split; try discriminate;
      intros [= Hp]; now apply (DecimalPos.Unsigned.to_uint_nonnil p). }
  destruct (Hnil a) as [Ha Ha'], (Hnil b) as [Hb Hb'].
  pose proof (NilZero.isi _ Ha Ha') as Ea.
  pose proof (NilZero.isi _ Hb Hb') as Eb.
  rewrite H, Eb in Ea. injection Ea as Ea.
  rewrite <- (DecimalZ.of_to a), <- (DecimalZ.of_to b). now rewrite Ea.
Qed.

Lemma uint_no_underscore (d : Decimal.uint) :
  has_char "_" (NilEmpty.string_of_uint d) = false.
Proof.
  induction d; cbn; auto.
Qed.

Lemma str_int_no_underscore (n : Z) : has_char "_" (Fmt.str_int n) = false.
Proof.
  unfold Fmt.str_int, NilZero.string_of_int, NilZero.string_of_uint.
  destruct (Z.to_int n) as [d | d]; destruct d; cbn;
    auto using uint_no_underscore.
Qed.

Lemma split_at_char (c : ascii) (a b x y : string) :
  has_char c a = false -> has_char c b = false ->
  (a ++ String c x)%string = (b ++ String c y)%string ->
  a = b /\ x = y.
Proof.
  revert b. induction a as [ | ca a IH]; intros [ | cb b]; cbn.
  - intros _ _ [= ->]. now split.
  - intros _ Hb [= <- _]. rewrite Ascii.eqb_refl in Hb. discriminate.
  - intros Ha _ [= -> _]. rewrite Ascii.eqb_refl in Ha. discriminate.
  - intros Ha Hb [= -> H].
    apply orb_false_elim in Ha as [_ Ha].
    apply orb_false_elim in Hb as [_ Hb].
    destruct (IH b Ha Hb H) as [-> ->]. now split.
Qed.

Lemma append_cancel_l (p a b : string) :
  (p ++ a)%string = (p ++ b)%string -> a = b.
Proof.
  induction p as [ | c p IH]; cbn; [ auto | ].
  intros [= H]. auto.
Qed.

Lemma append_cancel_r (s a b : string) :
  (a ++ s)%string = (b ++ s)%string -> a = b.
Proof.
  intros H. apply (f_equal list_ascii_of_string) in H.
  rewrite !FmtFacts.chars_app in H. apply app_inv_tail in H.
  rewrite <- (string_of_list_ascii_of_string a),
          <- (string_of_list_ascii_of_string b).
  now rewrite H.
Qed.

(** X17. Two iterations write their structures to the same file exactly when
    they have the same derived seed and their confidences print alike to
    three decimals; with different seeds no sample overwrites another. *)
Theorem iteration_files_clash_exactly_when (s1 s2 : Z) (o1 o2 : Out) :
  iteration_save_name s1 o1 = iteration_save_name s2 o2
  <-> s1 = s2
      /\ Fmt.format_3f (mean_iptm_ptm o1) = Fmt.format_3f (mean_iptm_ptm o2).
Proof.
  unfold iteration_save_name. split.
  - intros H. apply append_cancel_l in H.
    change ("_" ++ ?x)%string with (String "_" x) in H.
    apply split_at_char in H; try apply str_int_no_underscore.
    destruct H as [Hs Hf]. split.
    + now apply str_int_inj.
    + now apply append_cancel_r in Hf.
  - now intros [-> ->].
Qed.

Lemma has_char_app (c : ascii) (s t : string) :
  has_char c (s ++ t) = has_char c s || has_char c t.
Proof.
  induction s as [ | c' s IH]; cbn; [ reflexivity | ].
  now rewrite IH, orb_assoc.
Qed.

Lemma path_tail_no_slash (acc path : string) :
  has_char "/" acc = false ->
  has_char "/" (Fmt.path_tail acc path) = false.
Proof.
  revert acc. induction path as [ | c path IH]; intros acc Hacc; cbn;
    [ exact Hacc | ].
  destruct (Ascii.eqb c "/") eqn:Hc.
  - now apply IH.
  - apply IH. rewrite has_char_app, Hacc. cbn. now rewrite Hc.
Qed.

Lemma path_tail_plain (acc name : string) :
  has_char "/" name = false ->
  Fmt.path_tail acc name = (acc ++ name)%string.
Proof.
  revert acc. induction name as [ | c name IH]; intros acc Hname; cbn.
  - clear. induction acc; cbn; congruence.
  - cbn in Hname. apply orb_false_elim in Hname as [Hc Hname].
    rewrite Hc, (IH _ Hname), FmtFacts.append_assoc. reflexivity.
Qed.

Lemma path_tail_after_slash (acc dir name : string) :
  Fmt.path_tail acc (dir ++ String "/" name)
  = Fmt.path_tail EmptyString name.
Proof.
  revert acc. induction dir as [ | c dir IH]; intros acc; cbn;
    [ reflexivity | ].
  destruct (Ascii.eqb c "/"); apply IH.
Qed.

(** X18. The name the parameter file contributes to the names of the results is
    what follows the last slash of its path: it holds no slash itself, it
    is the whole path when the path has none, and it is empty when the path
    ends in a slash. *)
Theorem param_file_name_is_last_path_component (args : Args) :
  has_char "/" (cur_param_path_postfix args) = false
  /\ (has_char "/" (param_path args) = false ->
      cur_param_path_postfix args = param_path args)
  /\ (forall dir name,
         param_path args = (dir ++ "/" ++ name)%string ->
         has_char "/" name = false ->
         cur_param_path_postfix args = name).
Proof.
  unfold cur_param_path_postfix. split; [ | split ].
  - now apply path_tail_no_slash.
  - intros H. now rewrite path_tail_plain.
  - intros dir name -> Hname.
    change (dir ++ "/" ++ name)%string with (dir ++ String "/" name)%string.
    rewrite path_tail_after_slash. now apply path_tail_plain.
Qed.

End NameFacts.

(** ** What the feature pipeline is asked for *)

Section LoadFacts.

Variable Features : Type.
Variable load_and_process : Load.Request -> Features.
Variable collater : list Features -> Features.

Abbreviation load_with files :=
  (Load.load_feature_for_one_target files Features load_and_process
     collater).

(** X19. A monomer is loaded as the single chain [A] whatever files there are,
    with the UniProt directory only on request; for a multimer the call
    raises exactly when [chains.txt] of the data folder cannot be opened, the
    chains are the words of its first line, and [use_uniprot] changes
    nothing. *)
Theorem chains_file_matters_for_multimers_only
    (files files' : string -> option (list string))
    (data_folder crosslinks : string) (seed : Z) (use_uniprot : bool)
    (neff dropout_crosslinks : Z) :
  (load_with files data_folder crosslinks seed false use_uniprot neff
     dropout_crosslinks
   = load_with files' data_folder crosslinks seed false use_uniprot neff
       dropout_crosslinks
   /\ exists request,
        load_with files data_folder crosslinks seed false use_uniprot neff
          dropout_crosslinks
        = Some (collater [load_and_process request])
        /\ Load.sequence_ids request = ["A"%string]
        /\ Load.is_monomer request = true
        /\ Load.uniprot_msa_dir request
           = if use_uniprot then Some data_folder else None)
  /\ (load_with files data_folder crosslinks seed true use_uniprot neff
        dropout_crosslinks = None
      <-> files (Load.path_join data_folder "chains.txt") = None)
  /\ (forall ids,
         files (Load.path_join data_folder "chains.txt") = Some ids ->
         exists request,
           load_with files data_folder crosslinks seed true use_uniprot neff
             dropout_crosslinks
           = Some (collater [load_and_process request])
           /\ Load.sequence_ids request = ids
           /\ Load.is_monomer request = false
           /\ Load.uniprot_msa_dir request = Some data_folder)
  /\ load_with files data_folder crosslinks seed true use_uniprot neff
       dropout_crosslinks
     = load_with files data_folder crosslinks seed true (negb use_uniprot)
         neff dropout_crosslinks.
Proof.
  unfold Load.load_feature_for_one_target. cbn [negb].
  split; [ split; [ reflexivity | ] | split; [ | split ] ].
  - eexists. split; [ reflexivity | ]. cbn. auto.
  - destruct (files _); split; congruence.
  - intros ids ->. eexists. split; [ reflexivity | ]. cbn. auto.
  - reflexivity.
Qed.

End LoadFacts.

(** * The further properties at work in the demo world *)

Lemma selected_sample_is_unbeaten_witness :
  (1 <= 3)%nat
  /\ exists st i,
       after (Demo.world Demo.table_a) (Demo.args_with 3 false) None 3 = Ok st
       /\ (i < 3)%nat
       /\ best_out st
          = Some (snd (sample (Demo.world Demo.table_a)
                         (Demo.args_with 3 false) i))
       /\ forall j, (j < 3)%nat ->
            (iptm_ptm (snd (sample (Demo.world Demo.table_a)
                              (Demo.args_with 3 false) i))
             <? iptm_ptm (snd (sample (Demo.world Demo.table_a)
                                 (Demo.args_with 3 false) j)))%float = false.
Proof.
  split; [ lia | ].
  destruct (selected_sample_is_unbeaten
              (Demo.world Demo.table_a) (Demo.args_with 3 false) 3)
    as (st & i & Hrun & Hi & Ho & _ & _ & Hmax & _); [ lia | ].
  exists st, i. auto.
Defined.

Lemma best_replaced_only_by_strictly_higher_confidence_witness :
  (1 <= 1)%nat
  /\ exists st st',
       after (Demo.world Demo.table_a) (Demo.args_with 3 false) None 1 = Ok st
       /\ after (Demo.world Demo.table_a) (Demo.args_with 3 false) None 2
          = Ok st'
       /\ (best_iptm st' <? best_iptm st)%float = false.
Proof.
  split; [ lia | ].
  destruct (best_replaced_only_by_strictly_higher_confidence
              (Demo.world Demo.table_a) (Demo.args_with 3 false) 1)
    as (st & st' & Hst & Hst' & _ & Hup & _); [ lia | ].
  exists st, st'. auto.
Defined.

Lemma empty_run_raises_type_error_witness :
  main (Demo.world Demo.table_a) (Demo.args_with 0 false)
    (Some [Demo.row_ok]) = Raise TypeError
  /\ exists evs,
       main (Demo.world Demo.table_a) (Demo.args_with 3 false) None = Ok evs.
Proof.
  split.
  - apply (empty_run_raises_type_error
             (Demo.world Demo.table_a) (Demo.args_with 0 false)
             (Some [Demo.row_ok])).
    cbn. lia.
  - apply (empty_run_raises_type_error
             (Demo.world Demo.table_a) (Demo.args_with 3 false) None).
    cbn. lia.
Defined.

Lemma nan_score_never_wins_a_comparison_witness :
  (exists st st',
     after (Demo.world [(Demo.batch_xl, Demo.out_with 0.5);
                        (Demo.batch_xl, Demo.out_with nan)])
       (Demo.args_with 2 false) None 1 = Ok st
     /\ after (Demo.world [(Demo.batch_xl, Demo.out_with 0.5);
                           (Demo.batch_xl, Demo.out_with nan)])
          (Demo.args_with 2 false) None 2 = Ok st'
     /\ same_best st st')
  /\ exists st,
       after (Demo.world Demo.table_nan_first) (Demo.args_with 2 false)
         None 2 = Ok st
       /\ scored (Demo.world Demo.table_nan_first) (Demo.args_with 2 false)
            st 0.
Proof.
  split.
  - apply (proj1 (proj2 (nan_score_never_wins_a_comparison
                           (Demo.world [(Demo.batch_xl, Demo.out_with 0.5);
                                        (Demo.batch_xl, Demo.out_with nan)])
                           (Demo.args_with 2 false))) 1%nat);
      [ lia | reflexivity ].
  - apply (proj2 (proj2 (nan_score_never_wins_a_comparison
                           (Demo.world Demo.table_nan_first)
                           (Demo.args_with 2 false))) eq_refl 2%nat).
    lia.
Defined.

Lemma run_trace_in_order_witness :
  1 <= times (Demo.args_with 3 true)
  /\ exists st i evs,
       run_loop (Demo.world Demo.table_a) (Demo.args_with 3 true) None = Ok st
       /\ (i < 3)%nat
       /\ main (Demo.world Demo.table_a) (Demo.args_with 3 true) None
          = Ok (evs
                ++ final_log (Demo.world Demo.table_a) (Demo.args_with 3 true)
                     st
                     (fst (sample (Demo.world Demo.table_a)
                             (Demo.args_with 3 true) 2))
                     (snd (sample (Demo.world Demo.table_a)
                             (Demo.args_with 3 true) i))).
Proof.
  assert (H : 1 <= times (Demo.args_with 3 true)) by (cbn; lia).
  split; [ exact H | ].
  destruct (run_trace_in_order
              (Demo.world Demo.table_a) (Demo.args_with 3 true) H)
    as (st & i & Hrun & Hi & _ & Hmain).
  exists st, i. eexists. split; [ exact Hrun | ]. split; [ exact Hi | ].
  exact Hmain.
Defined.

Lemma raw_output_archived_exactly_on_request_witness :
  1 <= times (Demo.args_with 3 true)
  /\ exists evs,
       main (Demo.world Demo.table_a) (Demo.args_with 3 true) None = Ok evs
       /\ forall name o, ~ In (WriteFile name (Pickled o)) evs.
Proof.
  assert (H : 1 <= times (Demo.args_with 3 true)) by (cbn; lia).
  split; [ exact H | ].
  destruct (raw_output_archived_exactly_on_request
              (Demo.world Demo.table_a) (Demo.args_with 3 true) H)
    as (evs & Hmain & Hpickled).
  exists evs. split; [ exact Hmain | ].
  intros name o Hin. apply Hpickled in Hin as [Hraw _]. discriminate.
Defined.

Lemma ptm_summary_for_multimers_only_witness :
  1 <= times (Demo.args_with 3 true)
  /\ exists st out evs,
       run_loop (Demo.world Demo.table_a) (Demo.args_with 3 true) None = Ok st
       /\ best_out st = Some out
       /\ main (Demo.world Demo.table_a) (Demo.args_with 3 true) None
          = Ok evs
       /\ In (WriteFile
                (score_name (Demo.world Demo.table_a) (Demo.args_with 3 true)
                 ++ "_ptm.json")
                (JsonDump
                   [(best_save_name (Demo.args_with 3 true) st out,
                     str_float (Demo.world Demo.table_a)
                       (mean_iptm_ptm out))]))
            evs.
Proof.
  assert (H : 1 <= times (Demo.args_with 3 true)) by (cbn; lia).
  split; [ exact H | ].
  destruct (ptm_summary_for_multimers_only
              (Demo.world Demo.table_a) (Demo.args_with 3 true) H)
    as (st & out & evs & Hrun & Hbest & Hmain & Hjson).
  exists st, out, evs. repeat (split; [ assumption | ]).
  apply Hjson. right. repeat split.
Defined.

Lemma best_structure_b_factors_not_scaled_witness :
  1 <= times (Demo.args_with 3 true)
  /\ relax (Demo.args_with 3 true) = true
  /\ exists evs name name' p p',
       main (Demo.world Demo.table_a) (Demo.args_with 3 true) None = Ok evs
       /\ In (WriteFile name (ToPdb p)) evs
       /\ In (WriteFile name' (RelaxedPdb p')) evs
       /\ prediction p' = prediction p
       /\ b_factors p = map (fun x => F32.round (x * 100)) (b_factors p').
Proof.
  assert (H : 1 <= times (Demo.args_with 3 true)) by (cbn; lia).
  split; [ exact H | ]. split; [ reflexivity | ].
  destruct (best_structure_b_factors_not_scaled
              (Demo.world Demo.table_a) (Demo.args_with 3 true) H eq_refl)
    as (i & evs & name & name' & p & p' & Hmain & _ & Hin & _ & Hin' & Hpred
        & _ & Hb).
  exists evs, name, name', p, p'. auto.
Defined.

Lemma single_chain_satisfaction_is_nan_witness :
  count_true (List.concat (interface_xl Demo.batch_one_chain)) = 0
  /\ is_nan
       (satisfaction (Demo.world Demo.table_a) (Demo.args_with 3 false)
          Demo.batch_one_chain (Demo.out_with 0.9)) = true.
Proof.
  apply (single_chain_satisfaction_is_nan
           (Demo.world Demo.table_a) (Demo.args_with 3 false)
           Demo.batch_one_chain (Demo.out_with 0.9)).
  intros a a' Ha Ha'. cbn in Ha, Ha'.
  destruct Ha as [<- | [<- | [<- | [<- | []]]]];
    destruct Ha' as [<- | [<- | [<- | [<- | []]]]]; reflexivity.
Defined.

Lemma strip_first_drops_up_to_first_dot_witness :
  Keys.strip_first "model.evoformer.linear.weight" = "evoformer.linear.weight"%string
  /\ Keys.strip_first "weight" = EmptyString.
Proof.
  split.
  - apply (proj1 KeysFacts.strip_first_drops_up_to_first_dot
             "model"%string "evoformer.linear.weight"%string).
    reflexivity.
  - apply (proj2 KeysFacts.strip_first_drops_up_to_first_dot "weight"%string).
    reflexivity.
Defined.

Lemma load_params_lookup_witness :
  Keys.dict_get "evoformer.linear.weight"
    (Keys.load_params
       [("model.evoformer.linear.weight", 1); ("model.structure.bias", 2)]%string)
  = Keys.dict_get "model.evoformer.linear.weight"
      [("model.evoformer.linear.weight", 1); ("model.structure.bias", 2)]%string.
Proof.
  apply (KeysFacts.load_params_lookup "model"%string
           [("model.evoformer.linear.weight", 1);
            ("model.structure.bias", 2)]%string).
  - reflexivity.
  - repeat constructor; cbn; intuition discriminate.
  - intros k [<- | [<- | []]]; eexists; reflexivity.
Defined.

Lemma param_file_name_is_last_path_component_witness :
  cur_param_path_postfix (Demo.args_with 3 false)
  = "AlphaLink-Multimer_SDA_v3.pt"%string.
Proof.
  apply (proj2 (proj2 (NameFacts.param_file_name_is_last_path_component
                         (Demo.args_with 3 false)))
           "weights"%string "AlphaLink-Multimer_SDA_v3.pt"%string);
    reflexivity.
Defined.

Lemma chains_file_matters_for_multimers_only_witness :
  exists request,
    Load.load_feature_for_one_target
      (fun path =>
         if String.eqb path "data/chains.txt" then Some ["A"; "B"]%string
         else None)
      (list string) Load.sequence_ids (@List.concat string)
      "data" "crosslinks.pkl.gz" 126 true false (-1) (-1)
    = Some (List.concat [Load.sequence_ids request])
    /\ Load.sequence_ids request = ["A"; "B"]%string
    /\ Load.is_monomer request = false
    /\ Load.uniprot_msa_dir request = Some "data"%string.
Proof.
  apply (proj1 (proj2 (proj2
           (chains_file_matters_for_multimers_only
              (list string) Load.sequence_ids (@List.concat string)
              (fun path =>
                 if String.eqb path "data/chains.txt"
                 then Some ["A"; "B"]%string else None)
              (fun _ => None)
              "data"%string "crosslinks.pkl.gz"%string 126 false (-1) (-1))))
           ["A"; "B"]%string).
  reflexivity.
Defined.
